(** * pywikibot.site._basesite: site identity, title equivalence, page locks

    A shallow embedding of [BaseSite] (src/pywikibot/site/_basesite.py):
    the initializer that canonicalises a (code, family) pair, [sametitle],
    the pickling hooks [__getstate__]/[__setstate__], and the page-lock
    methods [lock_page]/[unlock_page] with the interleavings of their
    callers.

    Python [str] values are modelled as [string]; the case conversions and
    the whitespace class are those of the ASCII range, where [str.lower],
    [str.upper] and [str.strip] act letter by letter.  Outside that range
    Python's conversions are those of Unicode, which can change the
    length of a string and for which [s.upper().lower()] need not be
    [s.lower()]; a statement that relates the two conversions of a
    request is therefore made for requests that satisfy [isascii]. *)

From Stdlib Require Import ZArith NArith String Ascii List Bool Lia.
From stdpp Require Import base option list gmap sets strings functions.

Local Open Scope string_scope.
Local Open Scope Z_scope.

(** ** Python built-in [str] methods used by the module *)

Module str.

Definition lower_char (c : ascii) : ascii :=
  let n := N_of_ascii c in
  if ((65 <=? n) && (n <=? 90))%N then ascii_of_N (n + 32) else c.

Definition upper_char (c : ascii) : ascii :=
  let n := N_of_ascii c in
  if ((97 <=? n) && (n <=? 122))%N then ascii_of_N (n - 32) else c.

(** [s.lower()], [s.upper()] *)
Fixpoint lower (s : string) : string :=
  match s with
  | EmptyString => EmptyString
  | String c r => String (lower_char c) (lower r)
  end.

Fixpoint upper (s : string) : string :=
  match s with
  | EmptyString => EmptyString
  | String c r => String (upper_char c) (upper r)
  end.

(** [c in s] for a one-character [c] *)
Fixpoint contains (s : string) (c : ascii) : bool :=
  match s with
  | EmptyString => false
  | String d r => if Ascii.eqb c d then true else contains r c
  end.

(** [all(p(x) for x in s)] *)
Fixpoint all (p : ascii → bool) (s : string) : bool :=
  match s with
  | EmptyString => true
  | String c r => p c && all p r
  end.

(** [s.partition(sep)] for a one-character separator: the part before
    the first [sep], the separator itself (empty when it does not
    occur), and the part after it. *)
Fixpoint partition (sep : ascii) (s : string) : string * string * string :=
  match s with
  | EmptyString => (EmptyString, EmptyString, EmptyString)
  | String c r =>
      if Ascii.eqb c sep then (EmptyString, String sep EmptyString, r)
      else let '(h, d, t) := partition sep r in (String c h, d, t)
  end.

(** The characters [str.strip()] removes: tab, LF, VT, FF, CR, the four
    separators FS GS RS US, and the space. *)
Definition isspace (c : ascii) : bool :=
  let n := N_of_ascii c in
  (((9 <=? n) && (n <=? 13)) || ((28 <=? n) && (n <=? 32)))%N.

Fixpoint lstrip (s : string) : string :=
  match s with
  | EmptyString => EmptyString
  | String c r => if isspace c then lstrip r else s
  end.

(** [rstrip] keeps a character when it is not a space or when something
    survives to its right. *)
Fixpoint rstrip (s : string) : string :=
  match s with
  | EmptyString => EmptyString
  | String c r =>
      match rstrip r with
      | EmptyString => if isspace c then EmptyString else String c EmptyString
      | r' => String c r'
      end
  end.

Definition strip (s : string) : string := rstrip (lstrip s).

(** [s[:1]] and [s[1:]] *)
Definition head1 (s : string) : string :=
  match s with
  | EmptyString => EmptyString
  | String c _ => String c EmptyString
  end.

Definition tail1 (s : string) : string :=
  match s with
  | EmptyString => EmptyString
  | String _ r => r
  end.

End str.

(** ** The [re] call of the module *)

Module re.

Definition is_us (c : ascii) : bool :=
  Ascii.eqb c "_"%char || Ascii.eqb c " "%char.

(** [re.sub(r'[_ ]+', ' ', s)]: every maximal run of underscores and
    spaces becomes one space.  [in_run] records that the previous
    character belonged to the run being replaced. *)
Fixpoint sub_us_from (in_run : bool) (s : string) : string :=
  match s with
  | EmptyString => EmptyString
  | String c r =>
      if is_us c then
        if in_run then sub_us_from true r
        else String " "%char (sub_us_from true r)
      else String c (sub_us_from false r)
  end.

Definition sub_us (s : string) : string := sub_us_from false s.

End re.

(** ** pywikibot.tools *)

Module tools.

(** Modelled from the spec: [first_upper] of pywikibot.tools is not part
    of the sources at hand; the spec has it "uppercase the first letter
    of each local name (only the first letter; the rest of the string is
    untouched)".  Empty strings are mapped to themselves. *)
Definition first_upper (s : string) : string :=
  str.upper (str.head1 s) ++ str.tail1 s.

End tools.

(** ** pywikibot.exceptions and the exceptions of the module *)

Inductive exn :=
| UnknownSite (msg : string)
| PageInUse (title : string)
| KeyError (key : Z).

Inductive result (A : Type) :=
| Ok (a : A)
| Raised (e : exn).
Arguments Ok {A} a.
Arguments Raised {A} e.

(** ** pywikibot.family *)

Module family.

(** The part of a loaded [Family] object that [BaseSite] reads: its
    name, the mapping of language codes to hosts, the mapping of
    obsolete codes to their replacement ([None] when the code was
    removed without one), and the codes with hard category redirects. *)
Record Family := {
  name : string;
  langs : gmap string string;
  obsolete : gmap string (option string);
  use_hard_category_redirects : list string;
}.

End family.
Abbreviation Family := family.Family.

(** ** pywikibot.config: the process-wide defaults *)

Module config.
Record t := { family : string; mylang : string }.
End config.

(** ** pywikibot.site._namespace *)

Module _namespace.

(** Modelled from the spec: the namespace classes are not part of the
    sources at hand.  The spec describes the resolver as a "mapping from
    namespace identifier (small integer, including negative values for
    special namespaces) to a Namespace descriptor (custom name, aliases,
    case-folding mode)", with a "case/alias-aware lookup" by name that
    "must also recognize normalized (underscore-to-space, single-spaced)
    forms" and a [describe] that "fails with an error if id is not a
    recognized namespace". *)
Record Descriptor := {
  custom_name : string;
  aliases : list string;
  d_case : string;
}.

(** A namespace object: an identifier together with its descriptor. *)
Record Namespace := { id : Z; descr : Descriptor }.

Definition case (ns : Namespace) : string := d_case (descr ns).

(** [ns1 == ns2]: namespaces compare by identifier. *)
Definition eqb (a b : Namespace) : bool := (id a =? id b)%Z.

Record NamespacesDict := { table : gmap Z Descriptor }.

(** [namespaces[k]] *)
Definition getitem (d : NamespacesDict) (k : Z) : result Namespace :=
  match table d !! k with
  | Some x => Ok {| id := k; descr := x |}
  | None => Raised (KeyError k)
  end.

Definition normalize_name (name : string) : string :=
  str.lower (str.strip (re.sub_us name)).

(** The descriptor answers to the normalized name [n]. *)
Definition has_name (n : string) (x : Descriptor) : bool :=
  existsb (λ a, String.eqb (str.lower a) n) (custom_name x :: aliases x).

(** [namespaces.lookup_name(name)]: the namespace object or [None]. *)
Definition lookup_name (d : NamespacesDict) (name : string)
  : option Namespace :=
  match List.find (λ kx, has_name (normalize_name name) (snd kx))
                  (map_to_list (table d)) with
  | Some (k, x) => Some {| id := k; descr := x |}
  | None => None
  end.

End _namespace.
Abbreviation Namespace := _namespace.Namespace.
Abbreviation NamespacesDict := _namespace.NamespacesDict.

(** ** Effects of the initializer

    [BaseSite.__init__] writes to the log, may emit a warning, may update
    [pywikibot.config.mylang] and may raise.  [World] is what it can
    observe and change outside the object under construction. *)

Record World := {
  cfg : config.t;
  logged : list string;
  warned : list string;
}.

Definition M (A : Type) : Type := World → World * result A.

Global Instance M_ret : MRet M := λ A a w, (w, Ok a).
Global Instance M_bind : MBind M := λ A B f m w,
  match m w with
  | (w', Ok a) => f a w'
  | (w', Raised e) => (w', Raised e)
  end.

Definition raise {A} (e : exn) : M A := λ w, (w, Raised e).

Definition pywikibot_log (text : string) : M unit := λ w,
  ({| cfg := cfg w; logged := logged w ++ [text]; warned := warned w |}, Ok tt).

Definition warn (text : string) : M unit := λ w,
  ({| cfg := cfg w; logged := logged w; warned := warned w ++ [text] |}, Ok tt).

Definition get_config : M config.t := λ w, (w, Ok (cfg w)).

Definition set_mylang (code : string) : M unit := λ w,
  ({| cfg := {| config.family := config.family (cfg w); config.mylang := code |};
      logged := logged w; warned := warned w |}, Ok tt).

(** ** Collaborators of the site object *)

(** Callers of the lock methods are identified by a thread number. *)
Abbreviation thread := nat.

(** [threading.Condition()]: a lock with the thread that owns it, and the
    threads parked in [wait()] that no [notify] has released yet.  The
    lock of a Condition is re-entrant, but no method of the module enters
    it twice, so the owner alone is recorded. *)
Record Condition := {
  owner : option thread;
  waiters : list thread;
}.

Definition new_Condition : Condition := {| owner := None; waiters := [] |}.

(** Modelled from the spec: the page object model is not part of the
    sources at hand; the spec has "a page object exposing a title string"
    and has the lock methods "drop any section-fragment suffix before
    locking".  A page carries its title and, when it has one, the section
    fragment; [title with_section] appends the fragment after a hash sign
    only on request. *)
Record Page := {
  page_title : string;
  page_section : option string;
}.

Definition title (page : Page) (with_section : bool) : string :=
  match page_section page with
  | Some sec => if with_section then page_title page ++ "#" ++ sec
                else page_title page
  | None => page_title page
  end.

(** Objects the site caches but never inspects in the methods below. *)
Variant Throttle := ThrottleObj.
Variant IwSites := IwSitesObj.

(** ** pywikibot.site._basesite *)

Module _basesite.

(** The attributes an instance can hold.  [__code] and [__family] are
    the name-mangled [_BaseSite__code] and [_BaseSite__family]; the last
    three are created lazily and absent until then. *)
Record BaseSite := {
  __code : string;
  __family : Family;
  obsolete : bool;
  _username : option string;
  use_hard_category_redirects : bool;
  _pagemutex : Condition;
  _locked_pages : gset string;
  _throttle : option Throttle;
  _namespaces : option NamespacesDict;
  _iw_sites : option IwSites;
}.

(** The properties [code] and [family] *)
Definition code (self : BaseSite) : string := __code self.
Definition family (self : BaseSite) : Family := __family self.

(** [__str__] *)
Definition __str__ (self : BaseSite) : string :=
  family.name (family self) ++ ":" ++ code self.

(** [_cmpkey]: the key on which sites are compared. *)
Definition _cmpkey (self : BaseSite) : string * string :=
  (family.name (family self), code self).

(** [site1 == site2], through [ComparableMixin] *)
Definition eqb (a b : BaseSite) : bool :=
  bool_decide (_cmpkey a = _cmpkey b).

(** [languages]: [list(self.family.langs.keys())] *)
Definition languages (fam : Family) : list string :=
  (map_to_list (family.langs fam)).*1.

Definition dq : string := String (ascii_of_nat 34) EmptyString.

Section init.

(** [pywikibot.family.CODE_CHARACTERS] and
    [pywikibot.tools.normalize_username] are defined outside the
    sources at hand; the initializer is parametric in them. *)
Variable CODE_CHARACTERS : string.
Variable normalize_username : option string → option string.

(** [__init__(self, code, fam, user)], for [fam] an already loaded
    family object, which compares equal to [pywikibot.config.family]
    when that is its name.  The working values of [self.__code] and
    [self.obsolete] are threaded until the object is assembled;
    [code] keeps the (lowercased) requested code throughout, as the
    local variable of the source does. *)
Definition __init__ (code : string) (fam : Family) (user : option string)
  : M BaseSite :=
  code ← (if negb (String.eqb (str.lower code) code) then
            pywikibot_log ("BaseSite: code " ++ dq ++ code ++ dq
                           ++ " converted to lowercase") ;;
            mret (str.lower code)
          else mret code);
  (if negb (str.all (str.contains CODE_CHARACTERS) code) then
     pywikibot_log ("BaseSite: code " ++ dq ++ code ++ dq
                    ++ " contains invalid characters")
   else mret tt) ;;
  let self__code := code in
  let self__family := fam in
  let sitename c := family.name self__family ++ ":" ++ c in
  '(self__code, self_obsolete) ←
    match family.obsolete self__family !! self__code with
    | Some (Some replacement) =>
        let self__code := replacement in
        pywikibot_log ("Site " ++ sitename self__code
                       ++ " instantiated using aliases code of " ++ code) ;;
        mret (self__code, false)
    | Some None =>
        pywikibot_log ("Site " ++ sitename self__code
                       ++ " instantiated and marked " ++ dq ++ "obsolete"
                       ++ dq ++ " to prevent access") ;;
        mret (self__code, true)
    | None =>
        if negb (bool_decide (self__code ∈ languages self__family)) then
          if bool_decide (family.name self__family
                            ∈ dom (family.langs self__family))
             && (size (family.langs self__family) =? 1)%nat
          then
            let self__code := family.name self__family in
            c ← get_config;
            (if String.eqb (family.name self__family) (config.family c)
                && String.eqb code (config.mylang c)
             then
               set_mylang self__code ;;
               warn ("Global configuration variable " ++ dq ++ "mylang" ++ dq
                     ++ " changed to " ++ dq ++ self__code ++ dq
                     ++ " while instantiating site " ++ sitename self__code)
             else mret tt) ;;
            mret (self__code, false)
          else
            raise (UnknownSite ("Language '" ++ self__code
                                ++ "' does not exist in family "
                                ++ family.name self__family))
        else mret (self__code, false)
    end;
  mret {|
    __code := self__code;
    __family := self__family;
    obsolete := self_obsolete;
    _username := normalize_username user;
    use_hard_category_redirects :=
      bool_decide (self__code ∈ family.use_hard_category_redirects self__family);
    _pagemutex := new_Condition;
    _locked_pages := ∅;
    _throttle := None;
    _namespaces := None;
    _iw_sites := None;
  |}.

End init.

(** *** [sametitle]

    [self] enters only through the property [self.namespaces], the
    namespace table of the site, which is what the functions take. *)

Definition truthy (s : string) : bool := negb (String.eqb s "").

(** The local function [ns_split]: "Separate the namespace from the
    name."  The lookup runs only when the title has a colon; a namespace
    object is always true, so [not delim or not ns] holds exactly when
    there is no colon or the lookup gave [None]. *)
Definition ns_split (namespaces : NamespacesDict) (default_ns : Namespace)
    (title : string) : Namespace * string :=
  let '(ns, delim, name) := str.partition ":" title in
  match (if truthy delim then _namespace.lookup_name namespaces ns
         else None) with
  | Some ns => (ns, name)
  | None => (default_ns, title)
  end.

Definition sametitle (namespaces : NamespacesDict) (title1 title2 : string)
  : result bool :=
  let title1 := re.sub_us title1 in
  let title2 := re.sub_us title2 in
  if String.eqb title1 title2 then Ok true
  else
    match _namespace.getitem namespaces 0 with
    | Raised e => Raised e
    | Ok default_ns =>
        let '(ns1_obj, name1) := ns_split namespaces default_ns title1 in
        let '(ns2_obj, name2) := ns_split namespaces default_ns title2 in
        if negb (_namespace.eqb ns1_obj ns2_obj) then Ok false
        else
          let name1 := str.strip name1 in
          let name2 := str.strip name2 in
          let '(name1, name2) :=
            if String.eqb (_namespace.case ns1_obj) "first-letter"
            then (tools.first_upper name1, tools.first_upper name2)
            else (name1, name2) in
          Ok (String.eqb name1 name2)
    end.

(** *** Pickling: [__getstate__] and [__setstate__]

    Both methods work on the attribute dictionary of the instance. *)

Inductive value :=
| VStr (s : string)
| VOptStr (o : option string)
| VBool (b : bool)
| VFamily (f : Family)
| VCondition (c : Condition)
| VSet (s : gset string)
| VThrottle (t : Throttle)
| VNamespaces (d : NamespacesDict)
| VIwSites (i : IwSites).

Definition set_attr (key : string) (o : option value)
    (d : gmap string value) : gmap string value :=
  match o with
  | Some v => <[key := v]> d
  | None => d
  end.

(** [self.__dict__] *)
Definition __dict__ (self : BaseSite) : gmap string value :=
  set_attr "_iw_sites" (VIwSites <$> _iw_sites self)
  (set_attr "_namespaces" (VNamespaces <$> _namespaces self)
  (set_attr "_throttle" (VThrottle <$> _throttle self)
  (<["_locked_pages" := VSet (_locked_pages self)]>
  (<["_pagemutex" := VCondition (_pagemutex self)]>
  (<["use_hard_category_redirects" := VBool (use_hard_category_redirects self)]>
  (<["_username" := VOptStr (_username self)]>
  (<["obsolete" := VBool (obsolete self)]>
  (<["_BaseSite__family" := VFamily (__family self)]>
  (<["_BaseSite__code" := VStr (__code self)]> ∅))))))))).

(** The instance whose attribute dictionary is [d], when [d] has every
    attribute the initializer sets, each of its own kind. *)
Definition of_dict (d : gmap string value) : option BaseSite :=
  match d !! "_BaseSite__code", d !! "_BaseSite__family", d !! "obsolete",
        d !! "_username", d !! "use_hard_category_redirects",
        d !! "_pagemutex", d !! "_locked_pages" with
  | Some (VStr c), Some (VFamily f), Some (VBool o), Some (VOptStr u),
    Some (VBool h), Some (VCondition m), Some (VSet l) =>
      Some {|
        __code := c; __family := f; obsolete := o; _username := u;
        use_hard_category_redirects := h;
        _pagemutex := m; _locked_pages := l;
        _throttle := match d !! "_throttle" with
                     | Some (VThrottle t) => Some t | _ => None end;
        _namespaces := match d !! "_namespaces" with
                       | Some (VNamespaces n) => Some n | _ => None end;
        _iw_sites := match d !! "_iw_sites" with
                     | Some (VIwSites i) => Some i | _ => None end;
      |}
  | _, _, _, _, _, _, _ => None
  end.

(** [__getstate__]: "Remove Lock based classes before pickling."  The
    copy of the dictionary loses [_pagemutex], which every instance has,
    and, when present, [_throttle] and [_iw_sites]. *)
Definition __getstate__ (self : BaseSite) : gmap string value :=
  let new := __dict__ self in
  let new := delete "_pagemutex" new in
  let new := if bool_decide ("_throttle" ∈ dom new)
             then delete "_throttle" new else new in
  let new := if bool_decide ("_iw_sites" ∈ dom new)
             then delete "_iw_sites" new else new in
  new.

(** [__setstate__]: "Restore things removed in __getstate__."
    [self.__dict__.update(attrs)] lets [attrs] win over what the
    dictionary held, then a new Condition is stored. *)
Definition __setstate__ (self__dict__ attrs : gmap string value)
  : gmap string value :=
  let d := attrs ∪ self__dict__ in
  <["_pagemutex" := VCondition new_Condition]> d.

(** Unpickling creates the instance without running the initializer,
    with an empty attribute dictionary, and hands the pickled state to
    [__setstate__]. *)
Definition restore (state : gmap string value) : option BaseSite :=
  of_dict (__setstate__ ∅ state).

(** *** Page locks: [lock_page] and [unlock_page]

    The two methods run in several threads at once.  Each thread is at
    one of the program points below; a thread that is inside a
    [with self._pagemutex:] block owns the lock of the Condition. *)

Inductive pc :=
| Idle                                          (* outside both methods *)
| LockEnter (title : string) (block : bool)     (* l.316: acquiring *)
| LockTest (title : string) (block : bool)      (* l.317: the while test *)
| LockRaise (title : string)                    (* l.319: PageInUse leaves the block *)
| LockWait (title : string) (block : bool)      (* l.320: parked in wait() *)
| LockWake (title : string) (block : bool)      (* l.320: notified, re-acquiring *)
| LockAdd (title : string)                      (* l.321 *)
| LockExit                                      (* end of the with block *)
| UnlockEnter (page : Page)                     (* l.331: acquiring *)
| UnlockDiscard (page : Page)                   (* l.332 *)
| UnlockNotify                                  (* l.333 *)
| UnlockExit.                                   (* end of the with block *)

(** How the last call of a thread ended. *)
Inductive outcome :=
| Returned
| Raises (e : exn).

(** [holds t] is bookkeeping, not program state: the titles thread [t]
    has acquired with [lock_page] and not yet given up with
    [unlock_page]. *)
Record State := {
  site : BaseSite;
  pcs : thread → pc;
  last : thread → option outcome;
  holds : thread → gset string;
}.

Definition set_pagemutex (c : Condition) (self : BaseSite) : BaseSite :=
  {| __code := __code self; __family := __family self;
     obsolete := obsolete self; _username := _username self;
     use_hard_category_redirects := use_hard_category_redirects self;
     _pagemutex := c; _locked_pages := _locked_pages self;
     _throttle := _throttle self; _namespaces := _namespaces self;
     _iw_sites := _iw_sites self |}.

Definition set_locked_pages (l : gset string) (self : BaseSite) : BaseSite :=
  {| __code := __code self; __family := __family self;
     obsolete := obsolete self; _username := _username self;
     use_hard_category_redirects := use_hard_category_redirects self;
     _pagemutex := _pagemutex self; _locked_pages := l;
     _throttle := _throttle self; _namespaces := _namespaces self;
     _iw_sites := _iw_sites self |}.

(** Entering [with self._pagemutex:] succeeds when no thread owns the
    lock; the thread cannot move otherwise. *)
Definition acquire (t : thread) (next : pc) (s : State) : option State :=
  match owner (_pagemutex (site s)) with
  | Some _ => None
  | None =>
      Some {| site := set_pagemutex
                        {| owner := Some t;
                           waiters := waiters (_pagemutex (site s)) |}
                        (site s);
              pcs := <[t := next]> (pcs s);
              last := last s; holds := holds s |}
  end.

(** Leaving the block gives the lock up and ends the call. *)
Definition release (t : thread) (r : outcome) (s : State) : State :=
  {| site := set_pagemutex
               {| owner := None; waiters := waiters (_pagemutex (site s)) |}
               (site s);
     pcs := <[t := Idle]> (pcs s);
     last := <[t := Some r]> (last s);
     holds := holds s |}.

Definition goto (t : thread) (next : pc) (s : State) : State :=
  {| site := site s; pcs := <[t := next]> (pcs s);
     last := last s; holds := holds s |}.

(** A notified thread leaves [wait()] by taking the lock again. *)
Definition wake (p : pc) : pc :=
  match p with
  | LockWait title block => LockWake title block
  | p => p
  end.

(** One step of thread [t]; [None] when [t] cannot move. *)
Definition step (s : State) (t : thread) : option State :=
  let self := site s in
  match pcs s t with
  | Idle => None
  | LockEnter title block => acquire t (LockTest title block) s
  | LockTest title block =>
      if bool_decide (title ∈ _locked_pages self) then
        if negb block then Some (goto t (LockRaise title) s)
        else
          (* wait(): give the lock up and park on the condition *)
          Some {| site := set_pagemutex
                            {| owner := None;
                               waiters := waiters (_pagemutex self) ++ [t] |}
                            self;
                  pcs := <[t := LockWait title block]> (pcs s);
                  last := last s; holds := holds s |}
      else Some (goto t (LockAdd title) s)
  | LockRaise title => Some (release t (Raises (PageInUse title)) s)
  | LockWait _ _ => None
  | LockWake title block => acquire t (LockTest title block) s
  | LockAdd title =>
      Some {| site := set_locked_pages ({[title]} ∪ _locked_pages self) self;
              pcs := <[t := LockExit]> (pcs s);
              last := last s;
              holds := <[t := {[title]} ∪ holds s t]> (holds s) |}
  | LockExit => Some (release t Returned s)
  | UnlockEnter page => acquire t (UnlockDiscard page) s
  | UnlockDiscard page =>
      let title := title page false in
      Some {| site := set_locked_pages (_locked_pages self ∖ {[title]}) self;
              pcs := <[t := UnlockNotify]> (pcs s);
              last := last s;
              holds := <[t := holds s t ∖ {[title]}]> (holds s) |}
  | UnlockNotify =>
      (* notify_all(): every parked thread is released *)
      let parked := waiters (_pagemutex self) in
      Some {| site := set_pagemutex
                        {| owner := owner (_pagemutex self); waiters := [] |}
                        self;
              pcs := <[t := UnlockExit]>
                       (λ u, if bool_decide (u ∈ parked) then wake (pcs s u)
                             else pcs s u);
              last := last s; holds := holds s |}
  | UnlockExit => Some (release t Returned s)
  end.

(** What can happen next: an idle thread calls one of the two methods,
    or a thread inside a method takes its next step. *)
Inductive event :=
| CallLock (t : thread) (page : Page) (block : bool)
| CallUnlock (t : thread) (page : Page)
| Step (t : thread).

Definition exec (s : State) (e : event) : option State :=
  match e with
  | CallLock t page block =>
      match pcs s t with
      | Idle => Some (goto t (LockEnter (title page false) block) s)
      | _ => None
      end
  | CallUnlock t page =>
      match pcs s t with
      | Idle => Some (goto t (UnlockEnter page) s)
      | _ => None
      end
  | Step t => step s t
  end.

(** An [unlock_page] is orderly when, at the moment it discards the
    title, the title is held by the caller itself or is not locked. *)
Definition orderly (s : State) (e : event) : bool :=
  match e with
  | Step t =>
      match pcs s t with
      | UnlockDiscard page =>
          bool_decide (title page false ∈ holds s t)
          || negb (bool_decide (title page false ∈ _locked_pages (site s)))
      | _ => true
      end
  | _ => true
  end.

(** Running a schedule; with [check] only orderly events are accepted. *)
Fixpoint run (check : bool) (s : State) (es : list event) : option State :=
  match es with
  | [] => Some s
  | e :: es =>
      if check && negb (orderly s e) then None
      else match exec s e with
           | Some s' => run check s' es
           | None => None
           end
  end.

(** The threads of a site nobody uses yet. *)
Definition initial (self : BaseSite) : State :=
  {| site := self; pcs := λ _, Idle; last := λ _, None; holds := λ _, ∅ |}.

(** Thread [t] running without interference until it cannot move. *)
Fixpoint run_thread (fuel : nat) (t : thread) (s : State) : State :=
  match fuel with
  | O => s
  | S n => match step s t with
           | Some s' => run_thread n t s'
           | None => s
           end
  end.

(** A whole call of [lock_page] or [unlock_page] by thread [t] with no
    other thread moving meanwhile: four steps reach the end of either
    method. *)
Definition lock_page (s : State) (t : thread) (page : Page) (block : bool)
  : option State :=
  run_thread 4 t <$> exec s (CallLock t page block).

Definition unlock_page (s : State) (t : thread) (page : Page)
  : option State :=
  run_thread 4 t <$> exec s (CallUnlock t page).

(** *** [__repr__] and [__hash__]

    The class name of the instance and the built-in [hash] are
    parameters; [str(self.family)], which [format] puts in the third
    place, is the family name. *)
Definition __repr__ (class_name : string) (self : BaseSite) : string :=
  class_name ++ "(" ++ dq ++ code self ++ dq ++ ", " ++ dq
  ++ family.name (family self) ++ dq ++ ")".

Definition __hash__ (hash : string → Z) (class_name : string)
    (self : BaseSite) : Z :=
  hash (__repr__ class_name self).

(** *** The property [namespaces]

    "Return dict of valid namespaces on this wiki."  The table is built
    on first access, by the overridable [_build_namespaces], and kept in
    [_namespaces]; the property returns the instance as it is afterwards
    together with the table. *)
Definition set_namespaces (d : NamespacesDict) (self : BaseSite) : BaseSite :=
  {| __code := __code self; __family := __family self;
     obsolete := obsolete self; _username := _username self;
     use_hard_category_redirects := use_hard_category_redirects self;
     _pagemutex := _pagemutex self; _locked_pages := _locked_pages self;
     _throttle := _throttle self; _namespaces := Some d;
     _iw_sites := _iw_sites self |}.

Definition namespaces (_build_namespaces : NamespacesDict) (self : BaseSite)
  : BaseSite * NamespacesDict :=
  match _namespaces self with
  | None => (set_namespaces _build_namespaces self, _build_namespaces)
  | Some d => (self, d)
  end.

End _basesite.
Abbreviation BaseSite := _basesite.BaseSite.

(** * Notions used in the statements *)

Import _basesite.

(** A namespace object handed out by the table carries the descriptor
    the table stores under its identifier. *)
Definition from_table (d : NamespacesDict) (ns : Namespace) : Prop :=
  _namespace.table d !! _namespace.id ns = Some (_namespace.descr ns).

(** What unpickling returns for the pickled state of [self]. *)
Definition restored (self : BaseSite) : BaseSite :=
  {| __code := __code self; __family := __family self;
     obsolete := obsolete self; _username := _username self;
     use_hard_category_redirects := use_hard_category_redirects self;
     _pagemutex := new_Condition;
     _locked_pages := _locked_pages self;
     _throttle := None;
     _namespaces := _namespaces self;
     _iw_sites := None |}.

(** The program points inside a [with self._pagemutex:] block. *)
Definition in_block (p : pc) : bool :=
  match p with
  | LockTest _ _ | LockRaise _ | LockAdd _ | LockExit
  | UnlockDiscard _ | UnlockNotify | UnlockExit => true
  | _ => false
  end.

(** What holds of the threads of a site at every moment: a thread inside
    a block owns the lock; the locked titles are those some thread holds;
    no title has two holders; a thread about to add a title has seen it
    absent, and it still is. *)
Record invariant (s : State) : Prop := {
  inv_owner : ∀ t, in_block (pcs s t) = true → owner (_pagemutex (site s)) = Some t;
  inv_locked : ∀ x, x ∈ _locked_pages (site s) ↔ ∃ t, x ∈ holds s t;
  inv_holder : ∀ t1 t2 x, x ∈ holds s t1 → x ∈ holds s t2 → t1 = t2;
  inv_add : ∀ t x, pcs s t = LockAdd x → x ∉ _locked_pages (site s);
}.

(** The threads recorded as waiting on the Condition are those parked in
    [wait()]. *)
Definition is_wait (p : pc) : bool :=
  match p with LockWait _ _ => true | _ => false end.

Definition parked (s : State) : Prop :=
  ∀ u, u ∈ waiters (_pagemutex (site s)) ↔ is_wait (pcs s u) = true.

(** The lock of the Condition is owned exactly by the thread that is
    inside a [with self._pagemutex:] block. *)
Definition mutex_ok (s : State) : Prop :=
  ∀ t, owner (_pagemutex (site s)) = Some t ↔ in_block (pcs s t) = true.

(** [s.isascii()]: every character of [s] is below 128.  On such strings
    [str.lower] and [str.upper] above are Python's. *)
Definition isascii (s : string) : bool :=
  str.all (λ c, (N_of_ascii c <? 128)%N) s.

(** A code is valid for a family when, lowercased as the initializer
    does, it is one of the family's languages. *)
Definition valid_code (fam : Family) (code : string) : Prop :=
  str.lower code ∈ dom (family.langs fam).

(** The page a title denotes on a site whose main namespace is
    [default_ns]: the identifier of its namespace and its local name,
    trimmed and, in a first-letter namespace, with its first character
    uppercased. *)
Definition page_key (d : NamespacesDict) (default_ns : Namespace)
    (t : string) : Z * string :=
  let '(ns, name) := ns_split d default_ns (re.sub_us t) in
  (_namespace.id ns,
   if String.eqb (_namespace.case ns) "first-letter"
   then tools.first_upper (str.strip name) else str.strip name).

(** * Sample data

    Families, a namespace table and pages on which the definitions are
    evaluated below. *)

Module sample.

Definition CODE_CHARACTERS : string := "abcdefghijklmnopqrstuvwxyz0123456789-".

(** A stand-in for [normalize_username]: the name as given. *)
Definition normalize_username (user : option string) : option string := user.

(** A family with several languages, one replaced alias and one alias
    removed without replacement. *)
Definition wikipedia : Family := {|
  family.name := "wikipedia";
  family.langs := {[ "en" := "en.wikipedia.org"; "de" := "de.wikipedia.org";
                     "da" := "da.wikipedia.org" ]};
  family.obsolete := {[ "dk" := Some "da"; "mo" := None ]};
  family.use_hard_category_redirects := [];
|}.

(** A single-site family whose only language is keyed by its own name,
    spelled with capitals. *)
Definition MyWiki : Family := {|
  family.name := "MyWiki";
  family.langs := {[ "MyWiki" := "wiki.example.org" ]};
  family.obsolete := ∅;
  family.use_hard_category_redirects := [];
|}.

Definition world : World := {|
  cfg := {| config.family := "wikipedia"; config.mylang := "en" |};
  logged := [];
  warned := [];
|}.

(** The main, Template and Category namespaces. *)
Definition namespaces : NamespacesDict := {|
  _namespace.table :=
    {[ 0 := {| _namespace.custom_name := ""; _namespace.aliases := [];
               _namespace.d_case := "first-letter" |};
       10 := {| _namespace.custom_name := "Template"; _namespace.aliases := [];
                _namespace.d_case := "first-letter" |};
       14 := {| _namespace.custom_name := "Category"; _namespace.aliases := [];
                _namespace.d_case := "first-letter" |} ]}
|}.

Definition pageX : Page := {| page_title := "X"; page_section := None |}.
Definition pageX_intro : Page :=
  {| page_title := "X"; page_section := Some "Intro" |}.

(** The English Wikipedia site, as the initializer builds it. *)
Definition enwiki : BaseSite := {|
  _basesite.__code := "en";
  _basesite.__family := wikipedia;
  _basesite.obsolete := false;
  _basesite._username := None;
  _basesite.use_hard_category_redirects := false;
  _basesite._pagemutex := new_Condition;
  _basesite._locked_pages := ∅;
  _basesite._throttle := None;
  _basesite._namespaces := None;
  _basesite._iw_sites := None;
|}.

(** A whole call of thread [t], alone: the call and its four steps. *)
Definition locks (t : thread) (page : Page) (block : bool)
  : list _basesite.event :=
  [_basesite.CallLock t page block; _basesite.Step t; _basesite.Step t;
   _basesite.Step t; _basesite.Step t].

Definition unlocks (t : thread) (page : Page) : list _basesite.event :=
  [_basesite.CallUnlock t page; _basesite.Step t; _basesite.Step t;
   _basesite.Step t; _basesite.Step t].

(** Thread 0 locks X; thread 1, which never locked it, unlocks it;
    thread 2 locks it. *)
Definition rogue_unlock : list _basesite.event :=
  locks 0 pageX true ++ unlocks 1 pageX ++ locks 2 pageX true.

(** Thread 0 locks X; thread 1 asks for it, finds it taken and parks;
    thread 0 unlocks X, which wakes thread 1; thread 1 takes the lock
    again, re-tests, and gets X. *)
Definition handover : list _basesite.event :=
  locks 0 pageX true
  ++ [_basesite.CallLock 1 pageX_intro true; _basesite.Step 1;
      _basesite.Step 1]
  ++ unlocks 0 pageX
  ++ [_basesite.Step 1; _basesite.Step 1; _basesite.Step 1;
      _basesite.Step 1].

(** Thread 0 has entered the block of [lock_page]; thread 1 has called
    [lock_page] and is at its door. *)
Definition inside_block : list _basesite.event :=
  [_basesite.CallLock 0 pageX true; _basesite.Step 0;
   _basesite.CallLock 1 pageX true].

(** Thread 0 holds X; thread 1 has asked for it and is parked. *)
Definition waiting : list _basesite.event :=
  locks 0 pageX true
  ++ [_basesite.CallLock 1 pageX true; _basesite.Step 1; _basesite.Step 1].

(** A namespace table whose main namespace is case-sensitive, as on a
    dictionary wiki. *)
Definition wiktionary_main : Namespace :=
  {| _namespace.id := 0;
     _namespace.descr :=
       {| _namespace.custom_name := ""; _namespace.aliases := [];
          _namespace.d_case := "case-sensitive" |} |}.

Definition wiktionary_namespaces : NamespacesDict := {|
  _namespace.table :=
    {[ 0 := _namespace.descr wiktionary_main;
       10 := {| _namespace.custom_name := "Template"; _namespace.aliases := [];
                _namespace.d_case := "first-letter" |} ]}
|}.

(** The English Wikipedia site with page X locked. *)
Definition enwiki_X_locked : BaseSite :=
  _basesite.set_locked_pages {["X"]} enwiki.

(** The main namespace of [namespaces]. *)
Definition main : Namespace :=
  {| _namespace.id := 0;
     _namespace.descr :=
       {| _namespace.custom_name := ""; _namespace.aliases := [];
          _namespace.d_case := "first-letter" |} |}.

End sample.

(** * Properties *)

(** ** Strings *)

Example sub_us_ex : re.sub_us "Foo__ _bar_" = "Foo bar ".
Proof. reflexivity. Qed.
Example partition_ex : str.partition ":" "a:b:c" = ("a", ":", "b:c").
Proof. reflexivity. Qed.
Example partition_none : str.partition ":" "abc" = ("abc", "", "").
Proof. reflexivity. Qed.
Example strip_ex : str.strip "  a b  " = "a b".
Proof. reflexivity. Qed.
Example lower_ex : str.lower "De-CH" = "de-ch".
Proof. reflexivity. Qed.

(** ** Case conversion *)

Lemma lower_char_idem c : str.lower_char (str.lower_char c) = str.lower_char c.
Proof. destruct c as [[] [] [] [] [] [] [] []]; reflexivity. Qed.

Lemma lower_upper_char c : str.lower_char (str.upper_char c) = str.lower_char c.
Proof. destruct c as [[] [] [] [] [] [] [] []]; reflexivity. Qed.

Lemma lower_idem s : str.lower (str.lower s) = str.lower s.
Proof. induction s as [|c s IH]; simpl; [done|]. by rewrite lower_char_idem, IH. Qed.

Lemma lower_upper s : str.lower (str.upper s) = str.lower s.
Proof. induction s as [|c s IH]; simpl; [done|]. by rewrite lower_upper_char, IH. Qed.

Lemma isascii_lower s : isascii s = true → isascii (str.lower s) = true.
Proof.
  unfold isascii. induction s as [|c s IH]; simpl; [done|].
  intros [Hc Hs]%andb_true_iff. apply andb_true_iff. split; [|by apply IH].
  revert Hc. destruct c as [[] [] [] [] [] [] [] []]; vm_compute; done.
Qed.

Lemma elem_of_languages (fam : Family) (c : string) :
  c ∈ languages fam ↔ c ∈ dom (family.langs fam).
Proof.
  unfold languages. rewrite elem_of_dom, list_elem_of_fmap. split.
  - intros [[k v] [-> H]]. apply elem_of_map_to_list in H. eauto.
  - intros [v H]. exists (c, v). split; [done|]. by apply elem_of_map_to_list.
Qed.

(** A dictionary has [k] as its only key exactly when [k] is a key and
    the dictionary has one entry. *)
Lemma only_key {V} (m : gmap string V) (k : string) :
  k ∈ dom m ∧ size m = 1%nat ↔ dom m = {[k]}.
Proof.
  rewrite <- size_dom. split.
  - intros [Hk Hs]. apply size_1_elem_of in Hs as [x Hx].
    apply leibniz_equiv in Hx. rewrite Hx in Hk |- *.
    apply elem_of_singleton in Hk. by subst.
  - intros ->. split; [set_solver|]. apply size_singleton.
Qed.

(** ** The initializer *)

Ltac run_M :=
  unfold mbind, mret, M_bind, M_ret, pywikibot_log, warn, get_config,
    set_mylang, raise; simpl.

(** The initializer never looks at the spelling of the request beyond its
    lowercased form, except for what it writes to the log: the outcome
    and the configuration it leaves are those of the lowercased request. *)
Lemma init_lower CC nu (code : string) (fam : Family) user w :
  (__init__ CC nu code fam user w).2 = (__init__ CC nu (str.lower code) fam user w).2
  ∧ cfg (__init__ CC nu code fam user w).1
    = cfg (__init__ CC nu (str.lower code) fam user w).1.
Proof.
  unfold __init__. run_M.
  rewrite lower_idem, String.eqb_refl. simpl.
  destruct (String.eqb_spec (str.lower code) code) as [E|E]; simpl.
  - rewrite E. done.
  - destruct (str.all _ (str.lower code)); simpl;
    (destruct (family.obsolete fam !! str.lower code) as [[r|]|]; simpl; [done|done|]);
    (destruct (bool_decide (str.lower code ∈ languages fam)); simpl; [done|]);
    (destruct (bool_decide _ && _); simpl; [|done]);
    destruct (_ && _); simpl; done.
Qed.

(** C5: a request whose lowercased form is an obsolete alias without
    replacement resolves without raising, whatever the valid languages of
    the family are; the site is marked obsolete, keeps the alias as its
    code, and the process-wide configuration is untouched. *)
Theorem init_obsolete_without_replacement CC nu (code : string) (fam : Family)
    user w :
  family.obsolete fam !! str.lower code = Some None →
  ∃ w' self,
    __init__ CC nu code fam user w = (w', Ok self)
    ∧ obsolete self = true
    ∧ _basesite.code self = str.lower code
    ∧ family self = fam
    ∧ _locked_pages self = ∅
    ∧ cfg w' = cfg w.
Proof.
  intros Hobs. unfold __init__. run_M.
  destruct (String.eqb_spec (str.lower code) code) as [E|E]; simpl.
  - rewrite E in Hobs.
    destruct (str.all _ code); simpl; rewrite Hobs; simpl;
      eexists _, _; (split; [reflexivity|]); rewrite ?E; done.
  - destruct (str.all _ (str.lower code)); simpl; rewrite Hobs; simpl;
      eexists _, _; (split; [reflexivity|]); done.
Qed.

Example init_enwiki :
  (__init__ sample.CODE_CHARACTERS sample.normalize_username "en"
     sample.wikipedia None sample.world).2 = Ok sample.enwiki.
Proof. vm_compute. reflexivity. Qed.

Example init_alias_replaced :
  code <$> match (__init__ sample.CODE_CHARACTERS sample.normalize_username "DK"
                    sample.wikipedia None sample.world).2 with
           | Ok self => Some self | Raised _ => None end = Some "da".
Proof. vm_compute. reflexivity. Qed.

Lemma init_obsolete_without_replacement_witness :
  ∃ w' self,
    __init__ sample.CODE_CHARACTERS sample.normalize_username "Mo"
      sample.wikipedia None sample.world = (w', Ok self)
    ∧ obsolete self = true
    ∧ _basesite.code self = str.lower "Mo"
    ∧ family self = sample.wikipedia
    ∧ _locked_pages self = ∅
    ∧ cfg w' = cfg sample.world.
Proof.
  apply (init_obsolete_without_replacement sample.CODE_CHARACTERS
           sample.normalize_username "Mo" sample.wikipedia None sample.world).
  vm_compute. reflexivity.
Defined.

(** The test of the single-language shortcut, l.79-80. *)
Lemma single_language_test (fam : Family) :
  bool_decide (family.name fam ∈ dom (family.langs fam))
  && (size (family.langs fam) =? 1)%nat
  = bool_decide (dom (family.langs fam) = {[family.name fam]}).
Proof.
  apply eq_true_iff_eq.
  rewrite andb_true_iff, !bool_decide_eq_true, Nat.eqb_eq. apply only_key.
Qed.

(** C6: a request that is neither an obsolete alias nor a valid language
    of the family resolves to the family name when that name is the only
    language of the family, and raises [UnknownSite], naming the rejected
    (lowercased) code and the family, in every other case. *)
Theorem init_unknown_code CC nu (code : string) (fam : Family) user w :
  family.obsolete fam !! str.lower code = None →
  str.lower code ∉ dom (family.langs fam) →
  (dom (family.langs fam) = {[family.name fam]} →
     ∃ w' self,
       __init__ CC nu code fam user w = (w', Ok self)
       ∧ _basesite.code self = family.name fam
       ∧ obsolete self = false)
  ∧ (dom (family.langs fam) ≠ {[family.name fam]} →
     ∃ w',
       __init__ CC nu code fam user w
       = (w', Raised (UnknownSite ("Language '" ++ str.lower code
                                   ++ "' does not exist in family "
                                   ++ family.name fam)))
       ∧ cfg w' = cfg w).
Proof.
  intros Hobs Hlang.
  assert (Hin : bool_decide (str.lower code ∈ languages fam) = false).
  { apply bool_decide_eq_false. by rewrite elem_of_languages. }
  unfold __init__. run_M.
  destruct (String.eqb_spec (str.lower code) code) as [E|E]; simpl;
    [rewrite E in *|].
  all: destruct (str.all _ _); simpl; rewrite Hobs; simpl; rewrite Hin; simpl;
    clear Hin.
  all: rewrite single_language_test; case_bool_decide as Es; simpl.
  all: try (destruct (_ && _); simpl).
  all: split; intros Hd; try done.
  all: try (eexists _, _; split; [reflexivity|done]).
  all: eexists; split; [reflexivity|done].
Qed.

Lemma init_unknown_code_witness :
  (∃ w',
     __init__ sample.CODE_CHARACTERS sample.normalize_username "Xx"
       sample.wikipedia None sample.world
     = (w', Raised (UnknownSite ("Language '" ++ str.lower "Xx"
                                 ++ "' does not exist in family "
                                 ++ family.name sample.wikipedia)))
     ∧ cfg w' = cfg sample.world)
  ∧ (∃ w' self,
       __init__ sample.CODE_CHARACTERS sample.normalize_username "Xx"
         sample.MyWiki None sample.world = (w', Ok self)
       ∧ _basesite.code self = family.name sample.MyWiki
       ∧ obsolete self = false).
Proof.
  split.
  - refine (proj2 (init_unknown_code sample.CODE_CHARACTERS
                     sample.normalize_username "Xx" sample.wikipedia None
                     sample.world _ _) _).
    + vm_compute. reflexivity.
    + apply not_elem_of_dom. vm_compute. reflexivity.
    + apply (bool_decide_unpack _). vm_compute. exact I.
  - refine (proj1 (init_unknown_code sample.CODE_CHARACTERS
                     sample.normalize_username "Xx" sample.MyWiki None
                     sample.world _ _) _).
    + vm_compute. reflexivity.
    + apply not_elem_of_dom. vm_compute. reflexivity.
    + apply (bool_decide_unpack _). vm_compute. exact I.
Defined.

(** Where the code of a resolved site comes from: the lowercased request,
    the replacement the family gives for it, or the family name. *)
Lemma init_code_origin CC nu (code : string) (fam : Family) user w w' self :
  __init__ CC nu code fam user w = (w', Ok self) →
  _basesite.code self = str.lower code
  ∨ family.obsolete fam !! str.lower code = Some (Some (_basesite.code self))
  ∨ _basesite.code self = family.name fam.
Proof.
  unfold __init__. run_M.
  destruct (String.eqb_spec (str.lower code) code) as [E|E]; simpl;
    [rewrite E in *|].
  all: destruct (str.all _ _); simpl.
  all: destruct (family.obsolete fam !! _) as [[r|]|] eqn:Hobs; simpl.
  all: try (intros [= <- <-]; simpl; auto; fail).
  all: destruct (bool_decide (_ ∈ languages fam)); simpl.
  all: try (intros [= <- <-]; simpl; auto; fail).
  all: destruct (bool_decide _ && _); simpl; try discriminate.
  all: destruct (_ && _); simpl; intros [= <- <-]; simpl; auto.
Qed.

(** The uppercased and the lowercased spelling of a request have the same
    outcome and leave the same configuration. *)
Lemma init_upper_lower CC nu (code : string) (fam : Family) user w :
  (__init__ CC nu (str.upper code) fam user w).2
  = (__init__ CC nu (str.lower code) fam user w).2
  ∧ cfg (__init__ CC nu (str.upper code) fam user w).1
    = cfg (__init__ CC nu (str.lower code) fam user w).1.
Proof.
  destruct (init_lower CC nu (str.upper code) fam user w) as [H1 H2].
  rewrite lower_upper in H1, H2. done.
Qed.

(** A code that is valid for the family resolves: as an alias to its
    replacement or to an obsolete site, and otherwise to itself. *)
Lemma init_valid_resolves CC nu (code : string) (fam : Family) user w :
  valid_code fam code →
  ∃ w' self, __init__ CC nu code fam user w = (w', Ok self).
Proof.
  unfold valid_code. intros Hlang.
  assert (Hin : bool_decide (str.lower code ∈ languages fam) = true).
  { apply bool_decide_eq_true. by rewrite elem_of_languages. }
  unfold __init__. run_M.
  destruct (String.eqb_spec (str.lower code) code) as [E|E]; simpl;
    [rewrite E in *|].
  all: destruct (str.all _ _); simpl.
  all: destruct (family.obsolete fam !! _) as [[r|]|]; simpl.
  all: try (eexists _, _; reflexivity).
  all: rewrite Hin; simpl; eexists _, _; reflexivity.
Qed.

(** C7, as the code has it.  For an ASCII code that is valid for the
    family, the uppercased and the lowercased spelling both resolve, to
    sites that are equal on the (family name, code) key, and leave the
    same configuration.  The code of a resolved site is the lowercased
    request, the family's replacement for it, or the family name, each as
    the family spells it; so it is lowercase whenever the family spells
    its name and its replacement codes in lowercase ASCII. *)
Theorem init_case_insensitive CC nu (code : string) (fam : Family) user w :
  isascii code = true →
  valid_code fam code →
  (∃ w_up w_lo self_up self_lo,
     __init__ CC nu (str.upper code) fam user w = (w_up, Ok self_up)
     ∧ __init__ CC nu (str.lower code) fam user w = (w_lo, Ok self_lo)
     ∧ eqb self_up self_lo = true
     ∧ self_up = self_lo
     ∧ cfg w_up = cfg w_lo)
  ∧ (∀ request w0 w' self,
       isascii request = true →
       __init__ CC nu request fam user w0 = (w', Ok self) →
       (_basesite.code self = str.lower request
        ∨ family.obsolete fam !! str.lower request
          = Some (Some (_basesite.code self))
        ∨ _basesite.code self = family.name fam)
       ∧ (isascii (family.name fam) = true →
          str.lower (family.name fam) = family.name fam →
          map_Forall (λ _ o, ∀ r, o = Some r →
                               isascii r = true ∧ str.lower r = r)
                     (family.obsolete fam) →
          isascii (_basesite.code self) = true
          ∧ str.lower (_basesite.code self) = _basesite.code self)).
Proof.
  intros Hascii Hvalid. split.
  - assert (Hlo : valid_code fam (str.lower code)).
    { unfold valid_code. by rewrite lower_idem. }
    destruct (init_valid_resolves CC nu (str.lower code) fam user w Hlo)
      as (w_lo & self_lo & Elo).
    destruct (init_upper_lower CC nu code fam user w) as [Hout Hcfg].
    destruct (__init__ CC nu (str.upper code) fam user w)
      as [w_up out_up] eqn:Eup.
    rewrite Elo in Hout, Hcfg. simpl in Hout, Hcfg. subst out_up.
    exists w_up, w_lo, self_lo, self_lo.
    split; [done|]. split; [done|]. split; [|done].
    unfold eqb. by apply bool_decide_eq_true.
  - intros request w0 w' self Hreq Hinit.
    pose proof (init_code_origin _ _ _ _ _ _ _ _ Hinit) as Horigin.
    split; [done|]. intros Hname_ascii Hname Hrepl.
    destruct Horigin as [->|[Hr| ->]].
    + split; [by apply isascii_lower|apply lower_idem].
    + by apply (Hrepl _ _ Hr).
    + done.
Qed.

(** A resolved site whose code is not lowercase: the single-language
    shortcut adopts the family name as the family spells it. *)
Lemma init_code_not_lowercase :
  ∃ w' self,
    __init__ sample.CODE_CHARACTERS sample.normalize_username "en"
      sample.MyWiki None sample.world = (w', Ok self)
    ∧ _basesite.code self = "MyWiki"
    ∧ str.lower (_basesite.code self) ≠ _basesite.code self.
Proof.
  eexists _, _. split; [vm_compute; reflexivity|]. split; [reflexivity|].
  simpl. discriminate.
Qed.

Lemma init_case_insensitive_witness :
  isascii "De" = true
  ∧ valid_code sample.wikipedia "De"
  ∧ ∃ w_up w_lo self_up self_lo,
      __init__ sample.CODE_CHARACTERS sample.normalize_username
        (str.upper "De") sample.wikipedia None sample.world
      = (w_up, Ok self_up)
      ∧ __init__ sample.CODE_CHARACTERS sample.normalize_username
          (str.lower "De") sample.wikipedia None sample.world
        = (w_lo, Ok self_lo)
      ∧ eqb self_up self_lo = true
      ∧ self_up = self_lo
      ∧ cfg w_up = cfg w_lo.
Proof.
  assert (Hascii : isascii "De" = true) by reflexivity.
  assert (Hvalid : valid_code sample.wikipedia "De").
  { unfold valid_code. apply elem_of_dom. vm_compute. eauto. }
  split; [exact Hascii|]. split; [exact Hvalid|].
  exact (proj1 (init_case_insensitive sample.CODE_CHARACTERS
                  sample.normalize_username "De" sample.wikipedia None
                  sample.world Hascii Hvalid)).
Defined.

(** ** Title equivalence *)

Lemma getitem_from_table d k ns :
  _namespace.getitem d k = Ok ns → from_table d ns ∧ _namespace.id ns = k.
Proof.
  unfold _namespace.getitem, from_table.
  destruct (_namespace.table d !! k) eqn:E; [|discriminate].
  intros [= <-]. done.
Qed.

Lemma lookup_name_from_table d name ns :
  _namespace.lookup_name d name = Some ns → from_table d ns.
Proof.
  unfold _namespace.lookup_name, from_table.
  destruct (List.find _ _) as [[k x]|] eqn:E; [|discriminate].
  intros [= <-]. simpl. apply find_some in E as [Hin _].
  apply list_elem_of_In in Hin. by apply elem_of_map_to_list in Hin.
Qed.

Lemma ns_split_from_table d dflt t :
  from_table d dflt → from_table d (ns_split d dflt t).1.
Proof.
  intros Hd. unfold ns_split.
  destruct (str.partition ":" t) as [[ns delim] name].
  destruct (truthy delim); [|done].
  destruct (_namespace.lookup_name d ns) eqn:E; [|done].
  simpl. by apply lookup_name_from_table in E.
Qed.

(** Two namespace objects of one table with the same identifier have the
    same case-folding mode. *)
Lemma same_id_same_case d a b :
  from_table d a → from_table d b →
  _namespace.id a = _namespace.id b → _namespace.case a = _namespace.case b.
Proof.
  unfold from_table, _namespace.case. intros Ha Hb E.
  rewrite E in Ha. congruence.
Qed.

(** The comparison of [sametitle] once the fast path has failed. *)
Lemma sametitle_slow d dflt t1 t2 :
  re.sub_us t1 ≠ re.sub_us t2 →
  _namespace.getitem d 0 = Ok dflt →
  sametitle d t1 t2 =
    let '(ns1_obj, name1) := ns_split d dflt (re.sub_us t1) in
    let '(ns2_obj, name2) := ns_split d dflt (re.sub_us t2) in
    if negb (_namespace.eqb ns1_obj ns2_obj) then Ok false
    else if String.eqb (_namespace.case ns1_obj) "first-letter"
         then Ok (String.eqb (tools.first_upper (str.strip name1))
                             (tools.first_upper (str.strip name2)))
         else Ok (String.eqb (str.strip name1) (str.strip name2)).
Proof.
  intros Hne Hd. unfold sametitle.
  destruct (String.eqb_spec (re.sub_us t1) (re.sub_us t2)); [done|].
  rewrite Hd.
  destruct (ns_split d dflt (re.sub_us t1)) as [ns1 n1].
  destruct (ns_split d dflt (re.sub_us t2)) as [ns2 n2].
  destruct (negb _); [done|]. by destruct (String.eqb _ "first-letter").
Qed.

Lemma sametitle_fast d t1 t2 :
  re.sub_us t1 = re.sub_us t2 → sametitle d t1 t2 = Ok true.
Proof. intros E. unfold sametitle. by rewrite E, String.eqb_refl. Qed.

(** C8: titles whose normalized forms differ and that fall in namespaces
    with different identifiers are not the same page, whatever their
    local names; [Category:Foo] and [foo] are not the same page when
    [Category] names a namespace other than the main one. *)
Theorem sametitle_different_namespaces (d : NamespacesDict) (dflt : Namespace) :
  _namespace.getitem d 0 = Ok dflt →
  (∀ t1 t2,
     re.sub_us t1 ≠ re.sub_us t2 →
     _namespace.id (ns_split d dflt (re.sub_us t1)).1
       ≠ _namespace.id (ns_split d dflt (re.sub_us t2)).1 →
     sametitle d t1 t2 = Ok false)
  ∧ (∀ ns,
       _namespace.lookup_name d "Category" = Some ns →
       _namespace.id ns ≠ 0 →
       sametitle d "Category:Foo" "foo" = Ok false).
Proof.
  intros Hd.
  assert (Hgen : ∀ t1 t2,
     re.sub_us t1 ≠ re.sub_us t2 →
     _namespace.id (ns_split d dflt (re.sub_us t1)).1
       ≠ _namespace.id (ns_split d dflt (re.sub_us t2)).1 →
     sametitle d t1 t2 = Ok false).
  { intros t1 t2 Hne Hid. rewrite (sametitle_slow d dflt) by done.
    destruct (ns_split d dflt (re.sub_us t1)) as [ns1 n1].
    destruct (ns_split d dflt (re.sub_us t2)) as [ns2 n2].
    simpl in Hid. unfold _namespace.eqb.
    by destruct (Z.eqb_spec (_namespace.id ns1) (_namespace.id ns2)). }
  split; [exact Hgen|].
  intros ns Hns Hid. apply Hgen; [discriminate|].
  change (re.sub_us "Category:Foo") with "Category:Foo".
  change (re.sub_us "foo") with "foo".
  unfold ns_split. simpl str.partition. simpl truthy. cbv iota.
  rewrite Hns. simpl.
  apply getitem_from_table in Hd as [_ ->]. done.
Qed.

Lemma sametitle_different_namespaces_witness :
  sametitle sample.namespaces "Category:Foo" "foo" = Ok false
  ∧ sametitle sample.namespaces "Category:Foo" "Template:Foo" = Ok false.
Proof.
  destruct (sametitle_different_namespaces sample.namespaces
              {| _namespace.id := 0;
                 _namespace.descr :=
                   {| _namespace.custom_name := ""; _namespace.aliases := [];
                      _namespace.d_case := "first-letter" |} |})
    as [Hgen Hcat]; [vm_compute; reflexivity|].
  split.
  - eapply Hcat; [vm_compute; reflexivity|]. simpl. lia.
  - apply Hgen; [vm_compute; discriminate|]. vm_compute. discriminate.
Defined.

(** [first_upper] touches the first character only. *)
Lemma first_upper_spec (s : string) :
  tools.first_upper s =
    match s with
    | EmptyString => EmptyString
    | String c r => String (str.upper_char c) r
    end.
Proof. by destruct s. Qed.

(** C9: for two titles in the same namespace whose case-folding mode is
    "first-letter", [sametitle] compares the trimmed local names after
    uppercasing the first character of each and nothing else; so
    [template:Foo] and [Template:foo] are the same page, [template:fOo]
    and [Template:Foo] are not. *)
Theorem sametitle_first_letter (d : NamespacesDict) (dflt : Namespace) :
  _namespace.getitem d 0 = Ok dflt →
  (∀ t1 t2 ns1 ns2 name1 name2,
     ns_split d dflt (re.sub_us t1) = (ns1, name1) →
     ns_split d dflt (re.sub_us t2) = (ns2, name2) →
     _namespace.id ns1 = _namespace.id ns2 →
     _namespace.case ns1 = "first-letter" →
     sametitle d t1 t2
     = Ok (String.eqb (tools.first_upper (str.strip name1))
                      (tools.first_upper (str.strip name2))))
  ∧ (∀ c r, tools.first_upper (String c r) = String (str.upper_char c) r)
  ∧ (∀ ns,
       _namespace.lookup_name d "Template" = Some ns →
       _namespace.case ns = "first-letter" →
       sametitle d "template:Foo" "Template:foo" = Ok true
       ∧ sametitle d "template:fOo" "Template:Foo" = Ok false).
Proof.
  intros Hd.
  assert (Hgen : ∀ t1 t2 ns1 ns2 name1 name2,
     ns_split d dflt (re.sub_us t1) = (ns1, name1) →
     ns_split d dflt (re.sub_us t2) = (ns2, name2) →
     _namespace.id ns1 = _namespace.id ns2 →
     _namespace.case ns1 = "first-letter" →
     sametitle d t1 t2
     = Ok (String.eqb (tools.first_upper (str.strip name1))
                      (tools.first_upper (str.strip name2)))).
  { intros t1 t2 ns1 ns2 n1 n2 H1 H2 Hid Hcase.
    destruct (decide (re.sub_us t1 = re.sub_us t2)) as [E|E].
    - rewrite (sametitle_fast _ _ _ E). rewrite E, H2 in H1.
      injection H1 as _ ->. by rewrite String.eqb_refl.
    - rewrite (sametitle_slow d dflt) by done. rewrite H1, H2.
      unfold _namespace.eqb. rewrite Hid, Z.eqb_refl, Hcase. done. }
  split; [exact Hgen|]. split; [done|].
  intros ns Hns Hcase.
  assert (Hsplit : ∀ prefix name,
    _namespace.normalize_name prefix = "template" →
    str.partition ":" (re.sub_us (prefix ++ ":" ++ name))
      = (prefix, ":", name) →
    ns_split d dflt (re.sub_us (prefix ++ ":" ++ name)) = (ns, name)).
  { intros prefix name Hnorm Hpart. unfold ns_split. rewrite Hpart. simpl.
    unfold _namespace.lookup_name in Hns |- *. rewrite Hnorm.
    change (_namespace.normalize_name "Template") with "template" in Hns.
    by rewrite Hns. }
  split.
  - rewrite (Hgen "template:Foo" "Template:foo" ns ns "Foo" "foo");
      [done | by apply (Hsplit "template" "Foo")
            | by apply (Hsplit "Template" "foo") | done | done].
  - rewrite (Hgen "template:fOo" "Template:Foo" ns ns "fOo" "Foo");
      [done | by apply (Hsplit "template" "fOo")
            | by apply (Hsplit "Template" "Foo") | done | done].
Qed.

Lemma sametitle_first_letter_witness :
  sametitle sample.namespaces "template:Foo" "Template:foo" = Ok true
  ∧ sametitle sample.namespaces "template:fOo" "Template:Foo" = Ok false.
Proof.
  destruct (sametitle_first_letter sample.namespaces
              {| _namespace.id := 0;
                 _namespace.descr :=
                   {| _namespace.custom_name := ""; _namespace.aliases := [];
                      _namespace.d_case := "first-letter" |} |})
    as (_ & _ & Htemplate); [vm_compute; reflexivity|].
  eapply Htemplate; vm_compute; reflexivity.
Defined.

(** C10: on a fixed site [sametitle] is reflexive and symmetric, and
    titles that differ only in runs of underscores and spaces are the
    same page. *)
Theorem sametitle_reflexive_symmetric (d : NamespacesDict) :
  (∀ t, sametitle d t t = Ok true)
  ∧ (∀ t1 t2, sametitle d t1 t2 = sametitle d t2 t1)
  ∧ sametitle d "Foo_bar" "Foo bar" = Ok true
  ∧ (∀ t1 t2, re.sub_us t1 = re.sub_us t2 → sametitle d t1 t2 = Ok true).
Proof.
  split; [|split; [|split]].
  - intros t. by apply sametitle_fast.
  - intros t1 t2.
    destruct (decide (re.sub_us t1 = re.sub_us t2)) as [E|E].
    { by rewrite !sametitle_fast. }
    destruct (_namespace.getitem d 0) as [dflt|e] eqn:Hd.
    2:{ unfold sametitle. rewrite Hd.
        destruct (String.eqb_spec (re.sub_us t1) (re.sub_us t2)); [done|].
        destruct (String.eqb_spec (re.sub_us t2) (re.sub_us t1)); [|done].
        congruence. }
    rewrite !(sametitle_slow d dflt) by done.
    pose proof (getitem_from_table _ _ _ Hd) as [Hdt _].
    pose proof (ns_split_from_table d dflt (re.sub_us t1) Hdt) as F1.
    pose proof (ns_split_from_table d dflt (re.sub_us t2) Hdt) as F2.
    destruct (ns_split d dflt (re.sub_us t1)) as [ns1 n1].
    destruct (ns_split d dflt (re.sub_us t2)) as [ns2 n2].
    simpl in F1, F2. unfold _namespace.eqb.
    rewrite (Z.eqb_sym (_namespace.id ns2)).
    destruct (Z.eqb_spec (_namespace.id ns1) (_namespace.id ns2)) as [Hid|Hid];
      simpl; [|done].
    rewrite (same_id_same_case d ns1 ns2 F1 F2 Hid).
    destruct (String.eqb _ "first-letter"); f_equal; apply String.eqb_sym.
  - by apply sametitle_fast.
  - intros t1 t2. apply sametitle_fast.
Qed.

Lemma sametitle_reflexive_symmetric_witness :
  sametitle sample.namespaces "Foo__bar" "Foo _bar" = Ok true.
Proof.
  destruct (sametitle_reflexive_symmetric sample.namespaces)
    as (_ & _ & _ & Hrun).
  apply Hrun. vm_compute. reflexivity.
Defined.

(** ** Pickling *)

(** C1, as the code has it: pickling drops the Condition, the throttle
    and the interwiki cache and nothing else.  The restored site has a
    new Condition, owned by nobody and with nobody waiting, and the set
    of locked pages it had when it was pickled. *)
Theorem getstate_setstate_roundtrip (self : BaseSite) :
  restore (__getstate__ self) = Some (restored self)
  ∧ _locked_pages (restored self) = _locked_pages self
  ∧ _pagemutex (restored self) = new_Condition.
Proof.
  split; [|done].
  destruct self as [c f o u h m l [t|] [n|] [i|]];
    vm_compute; reflexivity.
Qed.

(** ** Page locks *)

Lemma in_block_wake p : in_block (wake p) = in_block p.
Proof. by destruct p. Qed.

Lemma wake_LockAdd p x : wake p = LockAdd x → p = LockAdd x.
Proof. by destruct p. Qed.

Ltac fn_cases u t :=
  destruct (decide (u = t)) as [->|?];
  [rewrite ?fn_lookup_insert in * | rewrite ?fn_lookup_insert_ne in * by done].

Lemma invariant_exclusive s t :
  invariant s → in_block (pcs s t) = true →
  ∀ u, in_block (pcs s u) = true → u = t.
Proof. intros [Ho _ _ _] Ht u Hu. apply Ho in Ht, Hu. congruence. Qed.

Lemma acquire_invariant s t next s' :
  invariant s → acquire t next s = Some s' →
  in_block next = true → (∀ x, next ≠ LockAdd x) → invariant s'.
Proof.
  intros [Ho Hl Hh Ha] Hacq Hnext Hadd. revert Hacq. unfold acquire.
  destruct (owner (_pagemutex (site s))) eqn:Hown; [discriminate|].
  intros [= <-]. split; simpl; auto.
  - intros u. fn_cases u t; [done|]. intros Hu%Ho. congruence.
  - intros u x. fn_cases u t; [by intros ?%Hadd|eauto].
Qed.

Lemma release_invariant s t r :
  invariant s → in_block (pcs s t) = true → invariant (release t r s).
Proof.
  intros Hinv Ht. pose proof (invariant_exclusive s t Hinv Ht) as Hex.
  destruct Hinv as [Ho Hl Hh Ha]. split; simpl; auto.
  - intros u. fn_cases u t; [done|]. intros Hu. by apply Hex in Hu.
  - intros u x. fn_cases u t; [done|eauto].
Qed.

Lemma goto_invariant s t next :
  invariant s → in_block (pcs s t) = true → in_block next = true →
  (∀ x, next = LockAdd x → x ∉ _locked_pages (site s)) →
  invariant (goto t next s).
Proof.
  intros [Ho Hl Hh Ha] Ht Hnext Hadd. split; simpl; auto.
  - intros u. fn_cases u t; [auto|auto].
  - intros u x. fn_cases u t; [auto|eauto].
Qed.

Lemma exec_invariant s e s' :
  invariant s → orderly s e = true → exec s e = Some s' → invariant s'.
Proof.
  intros Hinv Hord Hexec.
  destruct e as [t page block|t page|t]; simpl in Hexec.
  - destruct (pcs s t) eqn:Hpc; try discriminate. injection Hexec as <-.
    destruct Hinv as [Ho Hl Hh Ha]. split; simpl; auto.
    + intros u. fn_cases u t; [discriminate|auto].
    + intros u x. fn_cases u t; [discriminate|eauto].
  - destruct (pcs s t) eqn:Hpc; try discriminate. injection Hexec as <-.
    destruct Hinv as [Ho Hl Hh Ha]. split; simpl; auto.
    + intros u. fn_cases u t; [discriminate|auto].
    + intros u x. fn_cases u t; [discriminate|eauto].
  - unfold step in Hexec. simpl in Hord.
    destruct (pcs s t) eqn:Hpc; try discriminate.
    + by eapply acquire_invariant.
    + assert (Hin : in_block (pcs s t) = true) by by rewrite Hpc.
      case_bool_decide as Hlocked.
      * destruct block; simpl in Hexec; injection Hexec as <-.
        -- pose proof (invariant_exclusive s t Hinv Hin) as Hex.
           destruct Hinv as [Ho Hl Hh Ha]. split; simpl; auto.
           ++ intros u. fn_cases u t; [done|]. intros Hu. by apply Hex in Hu.
           ++ intros u x. fn_cases u t; [done|eauto].
        -- by apply goto_invariant.
      * injection Hexec as <-. apply goto_invariant; [done..|].
        by intros x [= <-].
    + injection Hexec as <-. apply release_invariant; [done|by rewrite Hpc].
    + by eapply acquire_invariant.
    + injection Hexec as <-.
      assert (Hin : in_block (pcs s t) = true) by by rewrite Hpc.
      pose proof (invariant_exclusive s t Hinv Hin) as Hex.
      destruct Hinv as [Ho Hl Hh Ha].
      assert (Hfree : ∀ u, title0 ∉ holds s u).
      { intros u Hu. apply (Ha t title0 Hpc). apply Hl. eauto. }
      split; simpl.
      * intros u. fn_cases u t; [auto|auto].
      * intros x. rewrite elem_of_union, elem_of_singleton, Hl. split.
        -- intros [->|[u Hu]].
           ++ exists t. rewrite fn_lookup_insert.
              apply elem_of_union. left. by apply elem_of_singleton.
           ++ exists u. fn_cases u t; [|done]. apply elem_of_union. by right.
        -- intros [u Hu]. fn_cases u t; [|eauto].
           apply elem_of_union in Hu as [->%elem_of_singleton|Hu]; eauto.
      * intros t1 t2 x. fn_cases t1 t; fn_cases t2 t; try done.
        -- rewrite elem_of_union, elem_of_singleton. intros [->|H1] H2.
           ++ by apply Hfree in H2.
           ++ eauto.
        -- rewrite elem_of_union, elem_of_singleton. intros H1 [->|H2].
           ++ by apply Hfree in H1.
           ++ eauto.
        -- eauto.
      * intros u x. fn_cases u t; [done|]. intros Hu.
        assert (in_block (pcs s u) = true) as ?%Hex by by rewrite Hu. done.
    + injection Hexec as <-. apply release_invariant; [done|by rewrite Hpc].
    + by eapply acquire_invariant.
    + injection Hexec as <-.
      assert (Hin : in_block (pcs s t) = true) by by rewrite Hpc.
      pose proof (invariant_exclusive s t Hinv Hin) as Hex.
      destruct Hinv as [Ho Hl Hh Ha].
      apply orb_true_iff in Hord.
      rewrite bool_decide_eq_true, negb_true_iff, bool_decide_eq_false in Hord.
      split; simpl.
      * intros u. fn_cases u t; [auto|auto].
      * intros x. rewrite elem_of_difference, elem_of_singleton, Hl. split.
        -- intros [[u Hu] Hne]. exists u. fn_cases u t; [|done].
           apply elem_of_difference. split; [done|].
           by rewrite elem_of_singleton.
        -- intros [u Hu]. fn_cases u t.
           ++ apply elem_of_difference in Hu as [Hu Hne%not_elem_of_singleton].
              eauto.
           ++ split; [eauto|]. intros ->. destruct Hord as [Ht|Hnl].
              ** by specialize (Hh _ _ _ Hu Ht).
              ** apply Hnl, Hl. eauto.
      * intros t1 t2 x. fn_cases t1 t; fn_cases t2 t; try done.
        all: rewrite ?elem_of_difference; intros H1 H2;
          eapply Hh; [apply H1|apply H2].
      * intros u x. fn_cases u t; [done|]. intros Hu.
        assert (in_block (pcs s u) = true) as ?%Hex by by rewrite Hu. done.
    + injection Hexec as <-.
      assert (Hin : in_block (pcs s t) = true) by by rewrite Hpc.
      destruct Hinv as [Ho Hl Hh Ha]. split; simpl; auto.
      * intros u. fn_cases u t; [auto|].
        case_bool_decide; rewrite ?in_block_wake; auto.
      * intros u x. fn_cases u t; [done|].
        case_bool_decide; [intros ?%wake_LockAdd|]; eauto.
    + injection Hexec as <-. apply release_invariant; [done|by rewrite Hpc].
Qed.

Lemma run_invariant es : ∀ s s',
  invariant s → run true s es = Some s' → invariant s'.
Proof.
  induction es as [|e es IH]; intros s s' Hinv; simpl.
  - by intros [= <-].
  - destruct (orderly s e) eqn:Hord; simpl; [|discriminate].
    destruct (exec s e) as [s1|] eqn:Hexec; [|discriminate].
    apply IH. by eapply exec_invariant.
Qed.

Lemma initial_invariant (self : BaseSite) :
  _locked_pages self = ∅ → owner (_pagemutex self) = None →
  invariant (initial self).
Proof.
  intros Hl Ho. split; simpl; try done.
  intros x. rewrite Hl. split; [set_solver|]. intros [_ H]. set_solver.
Qed.

(** The initializer hands out a site with no page locked and a new
    Condition. *)
Lemma init_fresh CC nu (code : string) (fam : Family) user w w' self :
  __init__ CC nu code fam user w = (w', Ok self) →
  _locked_pages self = ∅ ∧ _pagemutex self = new_Condition.
Proof.
  unfold __init__. run_M.
  destruct (negb _); simpl.
  all: destruct (str.all _ _); simpl.
  all: destruct (family.obsolete fam !! _) as [[r|]|]; simpl.
  all: try (intros [= <- <-]; done).
  all: destruct (bool_decide (_ ∈ languages fam)); simpl.
  all: try (intros [= <- <-]; done).
  all: destruct (bool_decide _ && _); simpl; try discriminate.
  all: destruct (_ && _); simpl; intros [= <- <-]; done.
Qed.

(** C2, as the code has it: on a site made by the initializer, along
    every schedule of calls and steps in which each [unlock_page]
    discards a title its caller holds or a title that is not locked, no
    title is ever held by two threads, and the locked titles are exactly
    the titles some thread holds. *)
Theorem lock_mutual_exclusion CC nu (code : string) (fam : Family) user w w'
    (self : BaseSite) (es : list event) (s : State) :
  __init__ CC nu code fam user w = (w', Ok self) →
  run true (initial self) es = Some s →
  (∀ t1 t2 x, x ∈ holds s t1 → x ∈ holds s t2 → t1 = t2)
  ∧ (∀ x, x ∈ _locked_pages (site s) ↔ ∃ t, x ∈ holds s t).
Proof.
  intros Hinit Hrun. apply init_fresh in Hinit as [Hl Hm].
  assert (Hinv : invariant s).
  { eapply run_invariant; [|exact Hrun].
    apply initial_invariant; [done|by rewrite Hm]. }
  destruct Hinv as [_ Hlocked Hholder _]. done.
Qed.

(** While a thread owns the lock of the Condition no other thread can
    take a step: the statements of a [with self._pagemutex:] block run
    without anything else touching the locked set. *)
Lemma owner_runs_alone s t u :
  invariant s → owner (_pagemutex (site s)) = Some t → u ≠ t →
  step s u = None.
Proof.
  intros [Ho _ _ _] Hown Hne. unfold step, acquire. rewrite Hown.
  destruct (pcs s u) eqn:Hpc; try done.
  all: assert (in_block (pcs s u) = true) as Hu%Ho by (by rewrite Hpc).
  all: congruence.
Qed.

(** *** Who waits on the Condition *)

Lemma parked_move s t next (c : Condition) (st : BaseSite) l h :
  parked s → is_wait (pcs s t) = false → is_wait next = false →
  _pagemutex st = c → waiters c = waiters (_pagemutex (site s)) →
  parked {| site := st; pcs := <[t := next]> (pcs s); last := l; holds := h |}.
Proof.
  intros Hp Ht Hnext Hc Hw u. simpl. rewrite Hc, Hw, (Hp u).
  fn_cases u t; [|done]. by rewrite Ht, Hnext.
Qed.

Lemma exec_parked s e s' : parked s → exec s e = Some s' → parked s'.
Proof.
  intros Hp Hexec.
  destruct e as [t page block|t page|t]; simpl in Hexec.
  - destruct (pcs s t) eqn:Hpc; try discriminate. injection Hexec as <-.
    by apply (parked_move s t _ (_pagemutex (site s))); rewrite ?Hpc.
  - destruct (pcs s t) eqn:Hpc; try discriminate. injection Hexec as <-.
    by apply (parked_move s t _ (_pagemutex (site s))); rewrite ?Hpc.
  - unfold step, acquire, release, goto in Hexec.
    destruct (pcs s t) eqn:Hpc; try discriminate.
    all: try (destruct (owner (_pagemutex (site s))); [discriminate|]).
    all: try (injection Hexec as <-;
              by eapply (parked_move s t); rewrite ?Hpc; simpl).
    + case_bool_decide; [destruct block; simpl in Hexec|];
        injection Hexec as <-.
      * intros u. simpl. rewrite elem_of_app, list_elem_of_singleton, (Hp u).
        fn_cases u t; [tauto|]. split; [intros [?|?]; done|auto].
      * by eapply (parked_move s t); rewrite ?Hpc; simpl.
      * by eapply (parked_move s t); rewrite ?Hpc; simpl.
    + injection Hexec as <-. intros u. simpl.
      rewrite elem_of_nil. fn_cases u t; [done|].
      split; [done|]. case_bool_decide as Hu.
      * by destruct (pcs s u).
      * intros Hw. by apply Hp in Hw.
Qed.

Lemma run_parked check es : ∀ s s',
  parked s → run check s es = Some s' → parked s'.
Proof.
  induction es as [|e es IH]; intros s s' Hp; simpl.
  - by intros [= <-].
  - destruct (check && negb (orderly s e)); [discriminate|].
    destruct (exec s e) as [s1|] eqn:Hexec; [|discriminate].
    apply IH. by eapply exec_parked.
Qed.

(** X16: on a site made by the initializer, whatever the schedule, a
    thread is parked in [wait()] exactly when the Condition lists it. *)
Lemma reachable_parked CC nu (code : string) (fam : Family) user w w'
    (self : BaseSite) check (es : list event) (s : State) :
  __init__ CC nu code fam user w = (w', Ok self) →
  run check (initial self) es = Some s →
  parked s.
Proof.
  intros Hinit Hrun. apply init_fresh in Hinit as [_ Hm].
  eapply run_parked; [|exact Hrun].
  intros u. simpl. rewrite Hm. simpl. by rewrite elem_of_nil.
Qed.

(** *** Whole calls *)

Ltac step_thread :=
  unfold step at 1; simpl; rewrite ?fn_lookup_insert; simpl.

Lemma title_without_section (page : Page) : title page false = page_title page.
Proof. unfold title. by destruct (page_section page). Qed.

(** C3: a non-blocking [lock_page], run to its end from a state where
    the caller is idle and the lock of the Condition is free, raises
    [PageInUse] with the title without its section exactly when that
    title is locked already, and then changes neither the locked set nor
    who holds what; otherwise it returns, and the title has joined the
    locked set. *)
Theorem lock_page_nonblocking (s : State) (t : thread) (page : Page) :
  pcs s t = Idle →
  owner (_pagemutex (site s)) = None →
  ∃ s',
    lock_page s t page false = Some s'
    ∧ pcs s' t = Idle
    ∧ owner (_pagemutex (site s')) = None
    ∧ title page false = page_title page
    ∧ (last s' t = Some (Raises (PageInUse (page_title page)))
       ↔ page_title page ∈ _locked_pages (site s))
    ∧ (page_title page ∈ _locked_pages (site s) →
       _locked_pages (site s') = _locked_pages (site s)
       ∧ holds s' = holds s)
    ∧ (page_title page ∉ _locked_pages (site s) →
       last s' t = Some Returned
       ∧ _locked_pages (site s') = {[page_title page]} ∪ _locked_pages (site s)).
Proof.
  intros Hidle Hown.
  unfold lock_page, exec. rewrite Hidle, title_without_section. simpl.
  step_thread. unfold acquire. simpl. rewrite Hown.
  step_thread.
  destruct (decide (page_title page ∈ _locked_pages (site s))) as [Hin|Hin].
  - rewrite (bool_decide_eq_true_2 _ Hin). simpl. do 2 step_thread.
    eexists. split; [reflexivity|]. simpl. rewrite !fn_lookup_insert.
    repeat split; try done.
  - rewrite (bool_decide_eq_false_2 _ Hin). do 2 step_thread.
    eexists. split; [reflexivity|]. simpl. rewrite !fn_lookup_insert.
    repeat split; try done.
Qed.

Lemma lock_page_nonblocking_witness :
  ∃ s',
    lock_page (initial sample.enwiki) 0%nat sample.pageX_intro false = Some s'
    ∧ last s' 0%nat = Some Returned
    ∧ _locked_pages (site s') = {["X"]} ∪ ∅.
Proof.
  destruct (lock_page_nonblocking (initial sample.enwiki) 0%nat
              sample.pageX_intro) as (s' & Hcall & _ & _ & _ & _ & _ & Hfree);
    [reflexivity|reflexivity|].
  exists s'. split; [exact Hcall|]. apply Hfree. simpl. set_solver.
Defined.

(** C4: [unlock_page], run to its end from a state where the caller is
    idle and the lock of the Condition is free, returns without raising;
    the title without its section has left the locked set, which is
    unchanged when the title was not in it; no thread is left parked on
    the Condition, and every thread that was parked has been woken. *)
Theorem unlock_page_never_fails (s : State) (t : thread) (page : Page) :
  pcs s t = Idle →
  owner (_pagemutex (site s)) = None →
  ∃ s',
    unlock_page s t page = Some s'
    ∧ pcs s' t = Idle
    ∧ last s' t = Some Returned
    ∧ owner (_pagemutex (site s')) = None
    ∧ _locked_pages (site s') = _locked_pages (site s) ∖ {[page_title page]}
    ∧ (page_title page ∉ _locked_pages (site s) →
       _locked_pages (site s') = _locked_pages (site s))
    ∧ waiters (_pagemutex (site s')) = []
    ∧ (∀ u x b, u ∈ waiters (_pagemutex (site s)) →
         pcs s u = LockWait x b → pcs s' u = LockWake x b)
    ∧ (∀ u, u ≠ t → u ∉ waiters (_pagemutex (site s)) → pcs s' u = pcs s u).
Proof.
  intros Hidle Hown.
  unfold unlock_page, exec. rewrite Hidle. simpl.
  step_thread. unfold acquire. simpl. rewrite Hown.
  do 3 step_thread. rewrite title_without_section.
  eexists. split; [reflexivity|]. simpl. rewrite !fn_lookup_insert.
  repeat split; try done.
  - intros Hin. apply difference_disjoint_L. by apply disjoint_singleton_r.
  - intros u x b Hu Hpc.
    assert (u ≠ t) by (intros ->; congruence).
    rewrite !fn_lookup_insert_ne by done.
    rewrite (bool_decide_eq_true_2 _ Hu), Hpc. done.
  - intros u Hne Hu. rewrite !fn_lookup_insert_ne by done.
    by rewrite (bool_decide_eq_false_2 _ Hu), ?fn_lookup_insert_ne by done.
Qed.

Lemma unlock_page_never_fails_witness :
  ∃ s',
    unlock_page (initial sample.enwiki) 0%nat sample.pageX = Some s'
    ∧ last s' 0%nat = Some Returned
    ∧ _locked_pages (site s') = ∅.
Proof.
  destruct (unlock_page_never_fails (initial sample.enwiki) 0%nat sample.pageX)
    as (s' & Hcall & _ & Hlast & _ & _ & Hnoop & _);
    [reflexivity|reflexivity|].
  exists s'. split; [exact Hcall|]. split; [exact Hlast|].
  apply Hnoop. simpl. set_solver.
Defined.

(** The scenario of the specification: A locks X; the non-blocking
    request of B raises; A unlocks; the non-blocking request of B
    succeeds. *)
Example lock_scenario :
  ∃ s1 s2 s3 s4,
    lock_page (initial sample.enwiki) 0%nat sample.pageX true = Some s1
    ∧ last s1 0%nat = Some Returned
    ∧ lock_page s1 1%nat sample.pageX false = Some s2
    ∧ last s2 1%nat = Some (Raises (PageInUse "X"))
    ∧ unlock_page s2 0%nat sample.pageX = Some s3
    ∧ lock_page s3 1%nat sample.pageX false = Some s4
    ∧ last s4 1%nat = Some Returned.
Proof.
  do 4 eexists.
  split; [vm_compute; reflexivity|]. split; [vm_compute; reflexivity|].
  split; [vm_compute; reflexivity|]. split; [vm_compute; reflexivity|].
  split; [vm_compute; reflexivity|]. split; vm_compute; reflexivity.
Qed.

(** A schedule on which two threads hold the same title: nothing ties an
    [unlock_page] to the thread that locked the page. *)
Lemma rogue_unlock_two_holders :
  ∃ s,
    run false (initial sample.enwiki) sample.rogue_unlock = Some s
    ∧ "X" ∈ holds s 0%nat
    ∧ "X" ∈ holds s 2%nat
    ∧ last s 0%nat = Some Returned
    ∧ last s 2%nat = Some Returned
    ∧ ¬ (∀ t1 t2 x, x ∈ holds s t1 → x ∈ holds s t2 → t1 = t2).
Proof.
  eexists. split; [vm_compute; reflexivity|].
  assert (H0 : "X" ∈ ({["X"]} ∪ ∅ : gset string)) by set_solver.
  split; [exact H0|]. split; [exact H0|].
  split; [reflexivity|]. split; [reflexivity|].
  intros H. specialize (H 0%nat 2%nat "X" H0 H0). discriminate.
Qed.

Lemma lock_mutual_exclusion_witness :
  match run true (initial sample.enwiki) sample.handover with
  | Some s =>
      (∀ t1 t2 x, x ∈ holds s t1 → x ∈ holds s t2 → t1 = t2)
      ∧ (∀ x, x ∈ _locked_pages (site s) ↔ ∃ t, x ∈ holds s t)
  | None => False
  end.
Proof.
  destruct (run true (initial sample.enwiki) sample.handover) as [s|] eqn:Hrun.
  - apply (lock_mutual_exclusion sample.CODE_CHARACTERS
             sample.normalize_username "en" sample.wikipedia None sample.world
             sample.world sample.enwiki sample.handover s);
      [vm_compute; reflexivity|exact Hrun].
  - vm_compute in Hrun. discriminate.
Defined.

(** A site pickled while a page is locked comes back with the page
    locked. *)
Lemma pickled_site_keeps_locks :
  ∃ s self',
    lock_page (initial sample.enwiki) 0%nat sample.pageX true = Some s
    ∧ restore (__getstate__ (site s)) = Some self'
    ∧ "X" ∈ _locked_pages self'
    ∧ _locked_pages self' ≠ ∅.
Proof.
  eexists _, _. split; [vm_compute; reflexivity|].
  split; [vm_compute; reflexivity|].
  split; apply (bool_decide_unpack _); vm_compute; exact I.
Qed.

(** * Further properties *)

(** ** The initializer, case by case *)

(** X1: an alias with a replacement resolves to the replacement, which is
    taken as the family gives it and is not checked against the valid
    languages; the site is not marked obsolete and the configuration is
    untouched. *)
Theorem init_alias_with_replacement CC nu (code : string) (fam : Family)
    user w (r : string) :
  family.obsolete fam !! str.lower code = Some (Some r) →
  ∃ w' self,
    __init__ CC nu code fam user w = (w', Ok self)
    ∧ _basesite.code self = r
    ∧ obsolete self = false
    ∧ use_hard_category_redirects self
      = bool_decide (r ∈ family.use_hard_category_redirects fam)
    ∧ cfg w' = cfg w.
Proof.
  intros Hobs. unfold __init__. run_M.
  destruct (String.eqb_spec (str.lower code) code) as [E|E]; simpl;
    [rewrite E in *|].
  all: destruct (str.all _ _); simpl; rewrite Hobs; simpl.
  all: eexists _, _; split; [reflexivity|done].
Qed.

Lemma init_alias_with_replacement_witness :
  ∃ w' self,
    __init__ sample.CODE_CHARACTERS sample.normalize_username "DK"
      sample.wikipedia None sample.world = (w', Ok self)
    ∧ _basesite.code self = "da"
    ∧ obsolete self = false
    ∧ use_hard_category_redirects self
      = bool_decide ("da" ∈ family.use_hard_category_redirects sample.wikipedia)
    ∧ cfg w' = cfg sample.world.
Proof.
  apply (init_alias_with_replacement sample.CODE_CHARACTERS
           sample.normalize_username "DK" sample.wikipedia None sample.world).
  vm_compute. reflexivity.
Defined.

(** X2: a request whose lowercased form is a valid language of the
    family, and no alias, resolves to that lowercased form; the site is
    not marked obsolete and the configuration is untouched. *)
Theorem init_valid_language CC nu (code : string) (fam : Family) user w :
  family.obsolete fam !! str.lower code = None →
  str.lower code ∈ dom (family.langs fam) →
  ∃ w' self,
    __init__ CC nu code fam user w = (w', Ok self)
    ∧ _basesite.code self = str.lower code
    ∧ obsolete self = false
    ∧ family self = fam
    ∧ cfg w' = cfg w
    ∧ warned w' = warned w.
Proof.
  intros Hobs Hlang.
  assert (Hin : bool_decide (str.lower code ∈ languages fam) = true).
  { apply bool_decide_eq_true. by rewrite elem_of_languages. }
  unfold __init__. run_M.
  destruct (String.eqb_spec (str.lower code) code) as [E|E]; simpl;
    [rewrite E in *|].
  all: destruct (str.all _ _); simpl; rewrite Hobs; simpl; rewrite Hin; simpl.
  all: eexists _, _; split; [reflexivity|done].
Qed.

Lemma init_valid_language_witness :
  ∃ w' self,
    __init__ sample.CODE_CHARACTERS sample.normalize_username "De"
      sample.wikipedia None sample.world = (w', Ok self)
    ∧ _basesite.code self = str.lower "De"
    ∧ obsolete self = false
    ∧ family self = sample.wikipedia
    ∧ cfg w' = cfg sample.world
    ∧ warned w' = warned sample.world.
Proof.
  apply (init_valid_language sample.CODE_CHARACTERS
           sample.normalize_username "De" sample.wikipedia None sample.world).
  - vm_compute. reflexivity.
  - apply elem_of_dom. vm_compute. eauto.
Defined.

(** X3: the [raise UnknownSite] of l.89-90 is reached exactly when the
    lowercased request is no alias, no valid language, and the family is
    not a single-language family named after its language.  The message
    then names the lowercased request and the family, and neither the
    configuration nor the warnings have changed.  (The statement is about
    [UnknownSite] only: what [Family.load] and the comparison of the
    family with [config.family] may raise lies in [pywikibot.family].) *)
Theorem init_raises_iff CC nu (code : string) (fam : Family) user w :
  ((∃ msg, snd (__init__ CC nu code fam user w) = Raised (UnknownSite msg))
   ↔ family.obsolete fam !! str.lower code = None
     ∧ (str.lower code ∉ dom (family.langs fam))
     ∧ dom (family.langs fam) ≠ {[family.name fam]})
  ∧ (∀ msg, snd (__init__ CC nu code fam user w) = Raised (UnknownSite msg) →
       msg = "Language '" ++ str.lower code
             ++ "' does not exist in family " ++ family.name fam
       ∧ cfg (fst (__init__ CC nu code fam user w)) = cfg w
       ∧ warned (fst (__init__ CC nu code fam user w)) = warned w).
Proof.
  unfold __init__. run_M.
  destruct (String.eqb_spec (str.lower code) code) as [E|E]; simpl;
    [rewrite E in *|].
  all: destruct (str.all _ _); simpl.
  all: destruct (family.obsolete fam !! _) as [[r|]|] eqn:Hobs; simpl.
  all: try (split; [split; [intros [e [=]]|intros [[=] _]]|intros e [=]]; fail).
  all: destruct (bool_decide (_ ∈ languages fam)) eqn:Hin; simpl.
  all: try (apply bool_decide_eq_true in Hin; rewrite elem_of_languages in Hin;
            split; [split; [intros [e [=]]|intros (_ & Hn & _); done]
                   |intros e [=]]; fail).
  all: apply bool_decide_eq_false in Hin; rewrite elem_of_languages in Hin.
  all: rewrite single_language_test; case_bool_decide as Es; simpl.
  all: try (destruct (_ && _); simpl).
  all: try (split; [split; [intros [e [=]]|intros (_ & _ & Hn); done]
                   |intros e [=]]; fail).
  all: split; [split; [done|eauto]|by intros e [= <-]].
Qed.

(** X4: the initializer never changes [config.family]; it changes
    [config.mylang], to the family name, and warns, only when it takes
    the single-language shortcut for the default family and the
    (lowercased) request is the default language. *)
Theorem init_config_effect CC nu (code : string) (fam : Family) user w :
  let w' := fst (__init__ CC nu code fam user w) in
  config.family (cfg w') = config.family (cfg w)
  ∧ ((cfg w' = cfg w ∧ warned w' = warned w)
     ∨ (config.mylang (cfg w') = family.name fam
        ∧ (∃ msg, warned w' = (warned w ++ [msg])%list)
        ∧ family.name fam = config.family (cfg w)
        ∧ str.lower code = config.mylang (cfg w)
        ∧ family.obsolete fam !! str.lower code = None
        ∧ (str.lower code ∉ dom (family.langs fam))
        ∧ dom (family.langs fam) = {[family.name fam]})).
Proof.
  unfold __init__. run_M.
  destruct (String.eqb_spec (str.lower code) code) as [E|E]; simpl;
    [rewrite E in *|].
  all: destruct (str.all _ _); simpl.
  all: destruct (family.obsolete fam !! _) as [[r|]|] eqn:Hobs; simpl.
  all: try (split; [done|by left]).
  all: destruct (bool_decide (_ ∈ languages fam)) eqn:Hin; simpl.
  all: try (split; [done|by left]).
  all: apply bool_decide_eq_false in Hin; rewrite elem_of_languages in Hin.
  all: rewrite single_language_test; case_bool_decide as Es; simpl.
  all: try (split; [done|by left]).
  all: destruct (String.eqb_spec (family.name fam) (config.family (cfg w)));
    simpl; try (split; [done|by left]).
  all: match goal with
       | |- context [String.eqb ?a (config.mylang ?c)] =>
           destruct (String.eqb_spec a (config.mylang c))
       end; simpl; try (split; [done|by left]).
  all: split; [done|right]; repeat split; eauto.
Qed.

(** X5: characters outside [CODE_CHARACTERS] are only logged: the outcome
    of the initializer, the configuration and the warnings it leaves do
    not depend on [CODE_CHARACTERS], and whatever was logged before is
    still at the head of the log afterwards. *)
Theorem init_invalid_characters_only_logged CC CC' nu (code : string)
    (fam : Family) user w :
  snd (__init__ CC nu code fam user w) = snd (__init__ CC' nu code fam user w)
  ∧ cfg (fst (__init__ CC nu code fam user w))
    = cfg (fst (__init__ CC' nu code fam user w))
  ∧ warned (fst (__init__ CC nu code fam user w))
    = warned (fst (__init__ CC' nu code fam user w))
  ∧ logged w `prefix_of` logged (fst (__init__ CC nu code fam user w)).
Proof.
  unfold __init__. run_M.
  destruct (String.eqb_spec (str.lower code) code) as [E|E]; simpl;
    [try rewrite E in *|].
  all: destruct (str.all (str.contains CC) _);
    destruct (str.all (str.contains CC') _); simpl.
  all: destruct (family.obsolete fam !! _) as [[r|]|] eqn:Hobs; simpl.
  all: try destruct (bool_decide (_ ∈ languages fam)) eqn:Hin; simpl.
  all: try (destruct (bool_decide _ && _); simpl).
  all: try (destruct (_ && _); simpl).
  all: repeat split; try done.
  all: rewrite <- ?(assoc_L (++)); try apply prefix_app_r; done.
Qed.

(** X6: a resolved site is marked obsolete exactly when the lowercased
    request is an alias the family removed without replacement. *)
Theorem init_obsolete_iff CC nu (code : string) (fam : Family) user w w' self :
  __init__ CC nu code fam user w = (w', Ok self) →
  (obsolete self = true ↔ family.obsolete fam !! str.lower code = Some None).
Proof.
  unfold __init__. run_M.
  destruct (String.eqb_spec (str.lower code) code) as [E|E]; simpl;
    [try rewrite E in *|].
  all: destruct (str.all _ _); simpl.
  all: destruct (family.obsolete fam !! _) as [[r|]|] eqn:Hobs; simpl.
  all: try (intros [= <- <-]; simpl; done).
  all: destruct (bool_decide (_ ∈ languages fam)); simpl.
  all: try (intros [= <- <-]; simpl; done).
  all: destruct (bool_decide _ && _); simpl; try discriminate.
  all: destruct (_ && _); simpl; intros [= <- <-]; done.
Qed.

Lemma init_obsolete_iff_witness :
  obsolete sample.enwiki = true
  ↔ family.obsolete sample.wikipedia !! str.lower "en" = Some None.
Proof.
  apply (init_obsolete_iff sample.CODE_CHARACTERS sample.normalize_username
           "en" sample.wikipedia None sample.world sample.world sample.enwiki).
  vm_compute. reflexivity.
Defined.

(** ** Identity and pickling *)

(** X7: sites that compare equal (same family name, same code) have the
    same [__str__], the same [__repr__] and so the same hash, for
    instances of one class. *)
Theorem equal_sites_same_hash (hash : string → Z) (class_name : string)
    (a b : BaseSite) :
  eqb a b = true →
  __str__ a = __str__ b
  ∧ __repr__ class_name a = __repr__ class_name b
  ∧ __hash__ hash class_name a = __hash__ hash class_name b.
Proof.
  unfold eqb, _cmpkey, __hash__, __repr__, __str__.
  intros H%bool_decide_eq_true. injection H as Hn Hc. by rewrite Hn, Hc.
Qed.

Lemma equal_sites_same_hash_witness :
  __str__ sample.enwiki = __str__ (restored sample.enwiki)
  ∧ __repr__ "BaseSite" sample.enwiki
    = __repr__ "BaseSite" (restored sample.enwiki)
  ∧ __hash__ (λ s, Z.of_nat (String.length s)) "BaseSite" sample.enwiki
    = __hash__ (λ s, Z.of_nat (String.length s)) "BaseSite"
        (restored sample.enwiki).
Proof.
  apply (equal_sites_same_hash (λ s, Z.of_nat (String.length s)) "BaseSite"
           sample.enwiki (restored sample.enwiki)).
  vm_compute. reflexivity.
Defined.

Lemma restore_getstate (self : BaseSite) :
  restore (__getstate__ self) = Some (restored self).
Proof.
  destruct self as [c f o u h m l [t|] [n|] [i|]]; vm_compute; reflexivity.
Qed.

(** Deleting a key only when it is there is deleting it. *)
Lemma guarded_delete (m : gmap string value) (k : string) :
  (if bool_decide (k ∈ dom m) then delete k m else m) = delete k m.
Proof.
  case_bool_decide as Hk; [done|]. symmetry. apply delete_id.
  by apply not_elem_of_dom.
Qed.

(** X8: the pickled state never has the keys [_pagemutex], [_throttle]
    and [_iw_sites], and has every other attribute of the instance with
    its value. *)
Theorem getstate_drops_three_keys (self : BaseSite) (k : string) :
  __getstate__ self !! k =
    if bool_decide (k = "_pagemutex" ∨ k = "_throttle" ∨ k = "_iw_sites")
    then None else __dict__ self !! k.
Proof.
  unfold __getstate__. rewrite !guarded_delete, !lookup_delete.
  repeat case_decide; subst; case_bool_decide; try done;
    exfalso; intuition congruence.
Qed.

(** X9: unpickling a pickled site gives a site that compares equal to
    the original, and pickling that one again gives the same state: what
    the Condition, the throttle and the interwiki cache were does not
    reach the pickle. *)
Theorem pickle_roundtrip_stable (self self' : BaseSite) :
  restore (__getstate__ self) = Some self' →
  eqb self self' = true
  ∧ __getstate__ self' = __getstate__ self
  ∧ restore (__getstate__ self') = Some self'.
Proof.
  rewrite restore_getstate. intros [= <-].
  split; [by apply bool_decide_eq_true|].
  assert (Hstate : __getstate__ (restored self) = __getstate__ self).
  { destruct self as [c f o u h m l [t|] [n|] [i|]]; vm_compute; reflexivity. }
  split; [exact Hstate|]. rewrite Hstate. apply restore_getstate.
Qed.

Lemma pickle_roundtrip_stable_witness :
  eqb sample.enwiki (restored sample.enwiki) = true
  ∧ __getstate__ (restored sample.enwiki) = __getstate__ sample.enwiki
  ∧ restore (__getstate__ (restored sample.enwiki))
    = Some (restored sample.enwiki).
Proof.
  apply (pickle_roundtrip_stable sample.enwiki (restored sample.enwiki)).
  vm_compute. reflexivity.
Defined.

(** ** Page locks: whole calls and what they compose to *)

(** What a whole call leaves behind, attribute by attribute. *)
Lemma lock_page_free_whole (s : State) (t : thread) (page : Page) (block : bool) :
  pcs s t = Idle →
  owner (_pagemutex (site s)) = None →
  page_title page ∉ _locked_pages (site s) →
  ∃ s',
    lock_page s t page block = Some s'
    ∧ _locked_pages (site s') = {[page_title page]} ∪ _locked_pages (site s)
    ∧ _pagemutex (site s')
      = {| owner := None; waiters := waiters (_pagemutex (site s)) |}
    ∧ (∀ u, pcs s' u = if decide (u = t) then Idle else pcs s u)
    ∧ (∀ u, last s' u = if decide (u = t) then Some Returned else last s u)
    ∧ (∀ u, holds s' u = if decide (u = t)
                         then {[page_title page]} ∪ holds s t else holds s u).
Proof.
  intros Hidle Hown Hin.
  unfold lock_page, exec. rewrite Hidle, title_without_section. simpl.
  step_thread. unfold acquire. simpl. rewrite Hown.
  step_thread. rewrite (bool_decide_eq_false_2 _ Hin). do 2 step_thread.
  eexists. split; [reflexivity|]. simpl.
  repeat split; try done; intros u; case_decide as Hu; subst;
    by rewrite ?fn_lookup_insert, ?fn_lookup_insert_ne by done.
Qed.

Lemma lock_page_taken_whole (s : State) (t : thread) (page : Page) (block : bool) :
  pcs s t = Idle →
  owner (_pagemutex (site s)) = None →
  page_title page ∈ _locked_pages (site s) →
  ∃ s',
    lock_page s t page block = Some s'
    ∧ _locked_pages (site s') = _locked_pages (site s)
    ∧ holds s' = holds s
    ∧ owner (_pagemutex (site s')) = None
    ∧ waiters (_pagemutex (site s'))
      = (if block then (waiters (_pagemutex (site s)) ++ [t])%list
         else waiters (_pagemutex (site s)))
    ∧ (∀ u, pcs s' u = if decide (u = t)
                       then (if block then LockWait (page_title page) true
                             else Idle)
                       else pcs s u)
    ∧ (∀ u, last s' u = if decide (u = t)
                        then (if block then last s t
                              else Some (Raises (PageInUse (page_title page))))
                        else last s u).
Proof.
  intros Hidle Hown Hin.
  unfold lock_page, exec. rewrite Hidle, title_without_section. simpl.
  step_thread. unfold acquire. simpl. rewrite Hown.
  step_thread. rewrite (bool_decide_eq_true_2 _ Hin).
  destruct block; simpl.
  - step_thread. eexists. split; [reflexivity|]. simpl.
    repeat split; try done; intros u; case_decide as Hu; subst;
      by rewrite ?fn_lookup_insert, ?fn_lookup_insert_ne by done.
  - do 2 step_thread. eexists. split; [reflexivity|]. simpl.
    repeat split; try done; intros u; case_decide as Hu; subst;
      by rewrite ?fn_lookup_insert, ?fn_lookup_insert_ne by done.
Qed.

Lemma unlock_page_whole (s : State) (t : thread) (page : Page) :
  pcs s t = Idle →
  owner (_pagemutex (site s)) = None →
  ∃ s',
    unlock_page s t page = Some s'
    ∧ _locked_pages (site s') = _locked_pages (site s) ∖ {[page_title page]}
    ∧ _pagemutex (site s') = new_Condition
    ∧ (∀ u, pcs s' u = if decide (u = t) then Idle
                       else if bool_decide (u ∈ waiters (_pagemutex (site s)))
                            then wake (pcs s u) else pcs s u)
    ∧ (∀ u, last s' u = if decide (u = t) then Some Returned else last s u)
    ∧ (∀ u, holds s' u = if decide (u = t)
                         then holds s t ∖ {[page_title page]} else holds s u).
Proof.
  intros Hidle Hown.
  unfold unlock_page, exec. rewrite Hidle. simpl.
  step_thread. unfold acquire. simpl. rewrite Hown.
  do 3 step_thread. rewrite title_without_section.
  eexists. split; [reflexivity|]. simpl.
  repeat split; try done; intros u; case_decide as Hu; subst;
    by rewrite ?fn_lookup_insert, ?fn_lookup_insert_ne by done.
Qed.



(** X11: locking a free page and then unlocking it, by the same thread
    and whatever sections the two page objects name, leaves the locked
    set as it was, the caller idle and the lock of the Condition free. *)
Theorem lock_unlock_roundtrip (s : State) (t : thread) (page page' : Page)
    (block : bool) :
  pcs s t = Idle →
  owner (_pagemutex (site s)) = None →
  page_title page ∉ _locked_pages (site s) →
  page_title page' = page_title page →
  ∃ s1 s2,
    lock_page s t page block = Some s1
    ∧ unlock_page s1 t page' = Some s2
    ∧ _locked_pages (site s2) = _locked_pages (site s)
    ∧ pcs s2 t = Idle
    ∧ last s2 t = Some Returned
    ∧ owner (_pagemutex (site s2)) = None.
Proof.
  intros Hidle Hown Hin Hsame.
  destruct (lock_page_free_whole s t page block Hidle Hown Hin)
    as (s1 & Hcall1 & Hl1 & Hm1 & Hpc1 & _ & _).
  assert (Hidle1 : pcs s1 t = Idle) by (by rewrite Hpc1, decide_True).
  assert (Hown1 : owner (_pagemutex (site s1)) = None) by (by rewrite Hm1).
  destruct (unlock_page_whole s1 t page' Hidle1 Hown1)
    as (s2 & Hcall2 & Hl2 & Hm2 & Hpc2 & Hlast2 & _).
  exists s1, s2. split; [done|]. split; [done|].
  split; [|by rewrite Hpc2, Hlast2, Hm2, !decide_True].
  rewrite Hl2, Hl1, Hsame. apply leibniz_equiv.
  rewrite difference_union_distr_l, difference_diag, (left_id _ _).
  apply difference_disjoint. by apply disjoint_singleton_r.
Qed.

Lemma lock_unlock_roundtrip_witness :
  ∃ s1 s2,
    lock_page (initial sample.enwiki) 0%nat sample.pageX_intro true = Some s1
    ∧ unlock_page s1 0%nat sample.pageX = Some s2
    ∧ _locked_pages (site s2) = _locked_pages (site (initial sample.enwiki))
    ∧ pcs s2 0%nat = Idle
    ∧ last s2 0%nat = Some Returned
    ∧ owner (_pagemutex (site s2)) = None.
Proof.
  apply (lock_unlock_roundtrip (initial sample.enwiki) 0%nat
           sample.pageX_intro sample.pageX true);
    [reflexivity|reflexivity|simpl; set_solver|reflexivity].
Defined.

(** X12: locks are per page, not per section, and not re-entrant: once a
    thread has locked a free page, a non-blocking [lock_page] for a page
    object with the same title raises [PageInUse], whatever section it
    names and whichever thread asks, the holder included. *)
Theorem lock_page_per_title (s : State) (t u : thread) (page page' : Page)
    (block : bool) :
  pcs s t = Idle →
  pcs s u = Idle →
  owner (_pagemutex (site s)) = None →
  page_title page ∉ _locked_pages (site s) →
  page_title page' = page_title page →
  ∃ s1 s2,
    lock_page s t page block = Some s1
    ∧ last s1 t = Some Returned
    ∧ lock_page s1 u page' false = Some s2
    ∧ last s2 u = Some (Raises (PageInUse (page_title page)))
    ∧ _locked_pages (site s2) = _locked_pages (site s1)
    ∧ holds s2 = holds s1.
Proof.
  intros Hidle Hidle_u Hown Hin Hsame.
  destruct (lock_page_free_whole s t page block Hidle Hown Hin)
    as (s1 & Hcall1 & Hl1 & Hm1 & Hpc1 & Hlast1 & _).
  assert (Hidle1 : pcs s1 u = Idle).
  { rewrite Hpc1. by case_decide. }
  assert (Hown1 : owner (_pagemutex (site s1)) = None) by (by rewrite Hm1).
  assert (Hin1 : page_title page' ∈ _locked_pages (site s1)).
  { rewrite Hl1, Hsame. apply elem_of_union. left. by apply elem_of_singleton. }
  destruct (lock_page_taken_whole s1 u page' false Hidle1 Hown1 Hin1)
    as (s2 & Hcall2 & Hl2 & Hh2 & _ & _ & _ & Hlast2).
  exists s1, s2. rewrite Hlast1, Hlast2, !decide_True, Hsame by done. done.
Qed.

Lemma lock_page_per_title_witness :
  ∃ s1 s2,
    lock_page (initial sample.enwiki) 0%nat sample.pageX true = Some s1
    ∧ last s1 0%nat = Some Returned
    ∧ lock_page s1 0%nat sample.pageX_intro false = Some s2
    ∧ last s2 0%nat = Some (Raises (PageInUse (page_title sample.pageX)))
    ∧ _locked_pages (site s2) = _locked_pages (site s1)
    ∧ holds s2 = holds s1.
Proof.
  apply (lock_page_per_title (initial sample.enwiki) 0%nat 0%nat sample.pageX
           sample.pageX_intro true);
    [reflexivity|reflexivity|reflexivity|simpl; set_solver|reflexivity].
Defined.

(** X13: [unlock_page] hands the title over.  When thread [u] is parked
    in [wait()] for a title and an idle thread unlocks a page with that
    title, [u] is woken, and its next four steps take the lock of the
    Condition again, find the title free, add it and return: [u] now
    holds the title. *)
Theorem unlock_page_hands_over (s : State) (t u : thread) (page : Page)
    (b : bool) :
  pcs s t = Idle →
  owner (_pagemutex (site s)) = None →
  pcs s u = LockWait (page_title page) b →
  u ∈ waiters (_pagemutex (site s)) →
  ∃ s1,
    unlock_page s t page = Some s1
    ∧ pcs s1 u = LockWake (page_title page) b
    ∧ pcs (run_thread 4 u s1) u = Idle
    ∧ last (run_thread 4 u s1) u = Some Returned
    ∧ page_title page ∈ _locked_pages (site (run_thread 4 u s1))
    ∧ page_title page ∈ holds (run_thread 4 u s1) u
    ∧ owner (_pagemutex (site (run_thread 4 u s1))) = None.
Proof.
  intros Hidle Hown Hwait Hu.
  assert (Hne : u ≠ t) by (intros ->; congruence).
  destruct (unlock_page_whole s t page Hidle Hown)
    as (s1 & Hcall & Hl & Hm & Hpc & _ & _).
  exists s1. split; [done|].
  assert (Hpc1 : pcs s1 u = LockWake (page_title page) b).
  { rewrite Hpc, decide_False, (bool_decide_eq_true_2 _ Hu), Hwait by done.
    done. }
  split; [done|].
  assert (Hfree : page_title page ∉ _locked_pages (site s1)).
  { rewrite Hl. intros [_ Hx]%elem_of_difference. apply Hx.
    by apply elem_of_singleton. }
  assert (Hrun : ∃ s2,
    run_thread 4 u s1 = s2
    ∧ pcs s2 u = Idle ∧ last s2 u = Some Returned
    ∧ page_title page ∈ _locked_pages (site s2)
    ∧ page_title page ∈ holds s2 u
    ∧ owner (_pagemutex (site s2)) = None).
  { unfold run_thread.
    unfold step at 1. rewrite Hpc1. unfold acquire. rewrite Hm. simpl.
    step_thread. rewrite (bool_decide_eq_false_2 _ Hfree). do 2 step_thread.
    eexists. split; [reflexivity|]. simpl.
    rewrite !fn_lookup_insert. repeat split; try done.
    all: apply elem_of_union; left; by apply elem_of_singleton. }
  destruct Hrun as (s2 & -> & Hrest). exact Hrest.
Qed.

Lemma unlock_page_hands_over_witness :
  match run true (initial sample.enwiki) sample.waiting with
  | Some s =>
      ∃ s1,
        unlock_page s 0%nat sample.pageX = Some s1
        ∧ pcs s1 1%nat = LockWake (page_title sample.pageX) true
        ∧ pcs (run_thread 4 1 s1) 1%nat = Idle
        ∧ last (run_thread 4 1 s1) 1%nat = Some Returned
        ∧ page_title sample.pageX ∈ _locked_pages (site (run_thread 4 1 s1))
        ∧ page_title sample.pageX ∈ holds (run_thread 4 1 s1) 1%nat
        ∧ owner (_pagemutex (site (run_thread 4 1 s1))) = None
  | None => False
  end.
Proof.
  destruct (run true (initial sample.enwiki) sample.waiting) as [s|] eqn:Hrun.
  - vm_compute in Hrun. injection Hrun as <-.
    apply (unlock_page_hands_over _ 0%nat 1%nat sample.pageX true);
      [reflexivity|reflexivity|reflexivity|].
    apply list_elem_of_singleton. reflexivity.
  - vm_compute in Hrun. discriminate.
Defined.

(** X14: a whole call of either method changes the locked set at the
    title of its page only, and what the other threads hold not at all. *)
Theorem lock_methods_touch_one_title (s : State) (t : thread) (page : Page)
    (block : bool) :
  pcs s t = Idle →
  owner (_pagemutex (site s)) = None →
  (∀ s', lock_page s t page block = Some s' →
     (∀ y, y ≠ page_title page →
        (y ∈ _locked_pages (site s') ↔ y ∈ _locked_pages (site s)))
     ∧ (∀ u, u ≠ t → holds s' u = holds s u))
  ∧ (∀ s', unlock_page s t page = Some s' →
       (∀ y, y ≠ page_title page →
          (y ∈ _locked_pages (site s') ↔ y ∈ _locked_pages (site s)))
       ∧ (∀ u, u ≠ t → holds s' u = holds s u)).
Proof.
  intros Hidle Hown. split; intros s' Hcall.
  - destruct (decide (page_title page ∈ _locked_pages (site s))) as [Hin|Hin].
    + destruct (lock_page_taken_whole s t page block Hidle Hown Hin)
        as (s1 & Hcall1 & Hl & Hh & _).
      rewrite Hcall in Hcall1. injection Hcall1 as <-. rewrite Hl, Hh. done.
    + destruct (lock_page_free_whole s t page block Hidle Hown Hin)
        as (s1 & Hcall1 & Hl & _ & _ & _ & Hh).
      rewrite Hcall in Hcall1. injection Hcall1 as <-. split.
      * intros y Hy. rewrite Hl, elem_of_union, elem_of_singleton. tauto.
      * intros u Hu. by rewrite Hh, decide_False.
  - destruct (unlock_page_whole s t page Hidle Hown)
      as (s1 & Hcall1 & Hl & _ & _ & _ & Hh).
    rewrite Hcall in Hcall1. injection Hcall1 as <-. split.
    + intros y Hy. rewrite Hl, elem_of_difference, elem_of_singleton. tauto.
    + intros u Hu. by rewrite Hh, decide_False.
Qed.

Lemma lock_methods_touch_one_title_witness :
  match lock_page (initial sample.enwiki) 0%nat sample.pageX true with
  | Some s' =>
      "Y" ∈ _locked_pages (site s')
      ↔ "Y" ∈ _locked_pages (site (initial sample.enwiki))
  | None => False
  end.
Proof.
  destruct (lock_page (initial sample.enwiki) 0%nat sample.pageX true)
    as [s'|] eqn:Hcall; [|vm_compute in Hcall; discriminate].
  destruct (lock_methods_touch_one_title (initial sample.enwiki) 0%nat
              sample.pageX true) as [Hlock _]; [reflexivity|reflexivity|].
  destruct (Hlock s' Hcall) as [Hy _]. apply Hy. discriminate.
Defined.

(** ** Page locks: the lock of the Condition *)

Lemma mutex_ok_stay s t next (st : BaseSite) l h :
  mutex_ok s → in_block next = in_block (pcs s t) →
  owner (_pagemutex st) = owner (_pagemutex (site s)) →
  mutex_ok {| site := st; pcs := <[t := next]> (pcs s); last := l; holds := h |}.
Proof.
  intros Hm Hn Ho u. simpl. rewrite Ho, (Hm u).
  fn_cases u t; [by rewrite Hn|done].
Qed.

Lemma mutex_ok_leave s t next (st : BaseSite) l h :
  mutex_ok s → in_block (pcs s t) = true → in_block next = false →
  owner (_pagemutex st) = None →
  mutex_ok {| site := st; pcs := <[t := next]> (pcs s); last := l; holds := h |}.
Proof.
  intros Hm Ht Hn Ho u. simpl. rewrite Ho.
  fn_cases u t; [by rewrite Hn|].
  split; [done|]. intros Hu. apply Hm in Ht, Hu. congruence.
Qed.

Lemma mutex_ok_enter s t next (st : BaseSite) l h :
  mutex_ok s → owner (_pagemutex (site s)) = None → in_block next = true →
  owner (_pagemutex st) = Some t →
  mutex_ok {| site := st; pcs := <[t := next]> (pcs s); last := l; holds := h |}.
Proof.
  intros Hm Hfree Hn Ho u. simpl. rewrite Ho.
  fn_cases u t; [by rewrite Hn|].
  split; [congruence|]. intros Hu. apply Hm in Hu. congruence.
Qed.

Lemma exec_mutex_ok s e s' : mutex_ok s → exec s e = Some s' → mutex_ok s'.
Proof.
  intros Hm Hexec.
  destruct e as [t page block|t page|t]; simpl in Hexec.
  - destruct (pcs s t) eqn:Hpc; try discriminate. injection Hexec as <-.
    by apply mutex_ok_stay; rewrite ?Hpc.
  - destruct (pcs s t) eqn:Hpc; try discriminate. injection Hexec as <-.
    by apply mutex_ok_stay; rewrite ?Hpc.
  - unfold step, acquire, release, goto in Hexec.
    destruct (pcs s t) eqn:Hpc; try discriminate.
    all: try (destruct (owner (_pagemutex (site s))) eqn:Hown;
              [discriminate|]; injection Hexec as <-;
              by apply mutex_ok_enter).
    all: try (injection Hexec as <-;
              by apply mutex_ok_leave; rewrite ?Hpc).
    all: try (injection Hexec as <-;
              by apply mutex_ok_stay; rewrite ?Hpc).
    + case_bool_decide; [destruct block; simpl in Hexec|];
        injection Hexec as <-.
      * by apply mutex_ok_leave; rewrite ?Hpc.
      * by apply mutex_ok_stay; rewrite ?Hpc.
      * by apply mutex_ok_stay; rewrite ?Hpc.
    + injection Hexec as <-. intros u. simpl. rewrite (Hm u).
      fn_cases u t; [by rewrite Hpc|].
      case_bool_decide; by rewrite ?in_block_wake.
Qed.

Lemma run_mutex_ok check es : ∀ s s',
  mutex_ok s → run check s es = Some s' → mutex_ok s'.
Proof.
  induction es as [|e es IH]; intros s s' Hm; simpl.
  - by intros [= <-].
  - destruct (check && negb (orderly s e)); [discriminate|].
    destruct (exec s e) as [s1|] eqn:Hexec; [|discriminate].
    apply IH. by eapply exec_mutex_ok.
Qed.

(** X15: on a site made by the initializer, along every schedule, also
    one with disorderly unlocks, the lock of the Condition is owned
    exactly by the thread that is inside a [with self._pagemutex:] block;
    so at most one thread is inside such a block, the owner can always
    take its next step, and no other thread can step before the owner
    leaves the block or waits. *)
Theorem mutex_owner_inside_block CC nu (code : string) (fam : Family) user
    w w' (self : BaseSite) check (es : list event) (s : State) :
  __init__ CC nu code fam user w = (w', Ok self) →
  run check (initial self) es = Some s →
  mutex_ok s
  ∧ (∀ t u, in_block (pcs s t) = true → in_block (pcs s u) = true → t = u)
  ∧ (∀ t, owner (_pagemutex (site s)) = Some t → is_Some (step s t))
  ∧ (∀ t u, owner (_pagemutex (site s)) = Some t → u ≠ t → step s u = None).
Proof.
  intros Hinit Hrun. apply init_fresh in Hinit as [_ Hmutex].
  assert (Hm : mutex_ok s).
  { eapply run_mutex_ok; [|exact Hrun].
    intros u. simpl. by rewrite Hmutex. }
  split; [exact Hm|]. split; [|split].
  - intros t u Ht Hu. apply Hm in Ht, Hu. congruence.
  - intros t Ht. apply Hm in Ht. unfold step.
    destruct (pcs s t); try discriminate; try by eexists.
    case_bool_decide; [destruct block|]; by eexists.
  - intros t u Ht Hne. unfold step, acquire. rewrite Ht.
    destruct (pcs s u) eqn:Hpc; try done.
    all: assert (in_block (pcs s u) = true) as Hu%Hm by (by rewrite Hpc).
    all: congruence.
Qed.

Lemma mutex_owner_inside_block_witness :
  match run false (initial sample.enwiki) sample.inside_block with
  | Some s =>
      owner (_pagemutex (site s)) = Some 0%nat
      ∧ is_Some (step s 0%nat)
      ∧ step s 1%nat = None
  | None => False
  end.
Proof.
  destruct (run false (initial sample.enwiki) sample.inside_block)
    as [s|] eqn:Hrun; [|vm_compute in Hrun; discriminate].
  destruct (mutex_owner_inside_block sample.CODE_CHARACTERS
              sample.normalize_username "en" sample.wikipedia None
              sample.world sample.world sample.enwiki false
              sample.inside_block s)
    as (_ & _ & Hstep & Halone); [vm_compute; reflexivity|exact Hrun|].
  assert (Hown : owner (_pagemutex (site s)) = Some 0%nat).
  { vm_compute in Hrun. injection Hrun as <-. reflexivity. }
  split; [exact Hown|]. split; [by apply Hstep|by apply (Halone 0%nat)].
Defined.

Lemma reachable_parked_witness :
  match run true (initial sample.enwiki) sample.waiting with
  | Some s => parked s
  | None => False
  end.
Proof.
  destruct (run true (initial sample.enwiki) sample.waiting) as [s|] eqn:Hrun;
    [|vm_compute in Hrun; discriminate].
  apply (reachable_parked sample.CODE_CHARACTERS sample.normalize_username
           "en" sample.wikipedia None sample.world sample.world sample.enwiki
           true sample.waiting s); [vm_compute; reflexivity|exact Hrun].
Defined.

(** ** Title equivalence: the page a title denotes *)

Lemma sub_us_from_idem (t : string) :
  (∀ b, re.sub_us_from false (re.sub_us_from b t) = re.sub_us_from b t)
  ∧ re.sub_us_from true (re.sub_us_from true t) = re.sub_us_from true t.
Proof.
  induction t as [|c t [IHf IHt]]; [done|]. split.
  - intros b. simpl. destruct (re.is_us c) eqn:Hc.
    + destruct b; [apply IHf|]. simpl. by rewrite IHt.
    + simpl. rewrite Hc. by rewrite IHf.
  - simpl. destruct (re.is_us c) eqn:Hc; [apply IHt|].
    simpl. rewrite Hc. by rewrite IHf.
Qed.

Lemma sub_us_idem (t : string) : re.sub_us (re.sub_us t) = re.sub_us t.
Proof. apply sub_us_from_idem. Qed.

(** With a main namespace, the answer of [sametitle] is the equality of
    the page keys of the two titles. *)
Lemma sametitle_compares_keys (d : NamespacesDict) (dflt : Namespace)
    (t1 t2 : string) :
  _namespace.getitem d 0 = Ok dflt →
  sametitle d t1 t2
  = Ok (bool_decide (page_key d dflt t1 = page_key d dflt t2)).
Proof.
  intros Hd.
  destruct (decide (re.sub_us t1 = re.sub_us t2)) as [E|E].
  { rewrite (sametitle_fast _ _ _ E). unfold page_key. rewrite E.
    by rewrite bool_decide_eq_true_2. }
  rewrite (sametitle_slow d dflt) by done. unfold page_key.
  pose proof (getitem_from_table _ _ _ Hd) as [Hdt _].
  pose proof (ns_split_from_table d dflt (re.sub_us t1) Hdt) as F1.
  pose proof (ns_split_from_table d dflt (re.sub_us t2) Hdt) as F2.
  destruct (ns_split d dflt (re.sub_us t1)) as [ns1 n1].
  destruct (ns_split d dflt (re.sub_us t2)) as [ns2 n2].
  simpl in F1, F2. unfold _namespace.eqb.
  destruct (Z.eqb_spec (_namespace.id ns1) (_namespace.id ns2)) as [Hid|Hid];
    simpl.
  - rewrite <- (same_id_same_case d ns1 ns2 F1 F2 Hid).
    destruct (String.eqb (_namespace.case ns1) "first-letter"); f_equal.
    all: match goal with
         | |- String.eqb ?a ?b = _ => destruct (String.eqb_spec a b)
         end.
    all: symmetry.
    all: first [apply bool_decide_eq_true; congruence
               |apply bool_decide_eq_false; congruence].
  - f_equal. symmetry. apply bool_decide_eq_false. congruence.
Qed.

(** X17: what [sametitle] decides is whether two titles denote the same
    page: when the site has a main namespace it never raises, and it
    answers true exactly when the two titles have the same page key
    (namespace identifier, canonical local name). *)
Theorem sametitle_page_key (d : NamespacesDict) (dflt : Namespace)
    (t1 t2 : string) :
  _namespace.getitem d 0 = Ok dflt →
  sametitle d t1 t2
  = Ok (bool_decide (page_key d dflt t1 = page_key d dflt t2))
  ∧ (sametitle d t1 t2 = Ok true
     ↔ page_key d dflt t1 = page_key d dflt t2).
Proof.
  intros Hd. rewrite (sametitle_compares_keys d dflt) by done.
  split; [done|]. split.
  - by intros [= H%bool_decide_eq_true].
  - intros H. by rewrite bool_decide_eq_true_2.
Qed.

Lemma sametitle_page_key_witness :
  sametitle sample.namespaces "template:Foo_bar" "Template:foo bar" = Ok true
  ↔ page_key sample.namespaces sample.main "template:Foo_bar"
    = page_key sample.namespaces sample.main "Template:foo bar".
Proof.
  apply (sametitle_page_key sample.namespaces sample.main "template:Foo_bar"
           "Template:foo bar").
  vm_compute. reflexivity.
Defined.

Lemma sametitle_true_without_main d t1 t2 :
  _namespace.table d !! 0 = None →
  sametitle d t1 t2 = Ok true → re.sub_us t1 = re.sub_us t2.
Proof.
  intros Hd. unfold sametitle, _namespace.getitem. rewrite Hd.
  by destruct (String.eqb_spec (re.sub_us t1) (re.sub_us t2)).
Qed.

(** X18: [sametitle] is transitive; with the reflexivity and symmetry of
    l.412 and l.419-430 it is an equivalence on titles. *)
Theorem sametitle_transitive (d : NamespacesDict) (t1 t2 t3 : string) :
  sametitle d t1 t2 = Ok true →
  sametitle d t2 t3 = Ok true →
  sametitle d t1 t3 = Ok true.
Proof.
  destruct (_namespace.getitem d 0) as [dflt|e] eqn:Hd.
  - rewrite !(sametitle_compares_keys d dflt) by done.
    intros [= H12%bool_decide_eq_true] [= H23%bool_decide_eq_true].
    f_equal. apply bool_decide_eq_true. congruence.
  - assert (Hnone : _namespace.table d !! 0 = None).
    { unfold _namespace.getitem in Hd.
      by destruct (_namespace.table d !! 0). }
    intros H12%(sametitle_true_without_main d _ _ Hnone)
           H23%(sametitle_true_without_main d _ _ Hnone).
    apply sametitle_fast. congruence.
Qed.

Lemma sametitle_transitive_witness :
  sametitle sample.namespaces "template:Foo_bar" "TEMPLATE:foo bar" = Ok true.
Proof.
  apply (sametitle_transitive sample.namespaces "template:Foo_bar"
           "Template:foo__bar" "TEMPLATE:foo bar");
    vm_compute; reflexivity.
Defined.

(** X19: [sametitle] raises only when the site has no namespace 0 and
    the normalized titles differ, and what it raises is [KeyError(0)]. *)
Theorem sametitle_raises_iff (d : NamespacesDict) (t1 t2 : string) :
  ((∃ e, sametitle d t1 t2 = Raised e)
   ↔ _namespace.table d !! 0 = None ∧ re.sub_us t1 ≠ re.sub_us t2)
  ∧ (∀ e, sametitle d t1 t2 = Raised e → e = KeyError 0).
Proof.
  unfold sametitle, _namespace.getitem.
  destruct (String.eqb_spec (re.sub_us t1) (re.sub_us t2)) as [E|E].
  { split; [split; [intros [e [=]]|intros [_ Hne]; done]|intros e [=]]. }
  destruct (_namespace.table d !! 0) as [x|] eqn:Hd.
  - destruct (ns_split _ _ (re.sub_us t1)) as [ns1 n1].
    destruct (ns_split _ _ (re.sub_us t2)) as [ns2 n2].
    destruct (negb _);
      [|destruct (String.eqb _ "first-letter")];
      (split; [split; [intros [e [=]]|intros [[=] _]]|intros e [=]]).
  - split; [split; [done|eauto]|by intros e [= <-]].
Qed.

(** X20: [sametitle] looks at its arguments only through their
    normalized forms, and normalizing is idempotent: replacing a title
    by its normalized form, anywhere, changes no answer. *)
Theorem sametitle_normalized (d : NamespacesDict) (t1 t2 : string) :
  re.sub_us (re.sub_us t1) = re.sub_us t1
  ∧ sametitle d (re.sub_us t1) t2 = sametitle d t1 t2
  ∧ sametitle d t1 (re.sub_us t2) = sametitle d t1 t2
  ∧ sametitle d t1 (re.sub_us t1) = Ok true.
Proof.
  split; [apply sub_us_idem|].
  unfold sametitle. rewrite !sub_us_idem. by rewrite String.eqb_refl.
Qed.

(** ** Title equivalence: namespace prefixes *)

Lemma is_us_colon c : re.is_us c = true → Ascii.eqb c ":" = false.
Proof.
  unfold re.is_us. intros [H|H]%orb_true_iff; apply Ascii.eqb_eq in H; by subst.
Qed.

(** Normalizing a title with a colon normalizes what is before and what
    is after the colon separately. *)
Lemma sub_us_from_colon (p n : string) : ∀ b,
  re.sub_us_from b (p ++ String ":" n)
  = re.sub_us_from b p ++ String ":" (re.sub_us n).
Proof.
  induction p as [|c p IH]; intros b; simpl; [done|].
  destruct (re.is_us c); [destruct b|]; simpl; by rewrite IH.
Qed.

Lemma contains_sub_us_from (p : string) : ∀ b,
  str.contains (re.sub_us_from b p) ":" = str.contains p ":".
Proof.
  induction p as [|c p IH]; intros b; [done|].
  cbn [re.sub_us_from]. destruct (re.is_us c) eqn:Hc.
  - apply is_us_colon in Hc. rewrite Ascii.eqb_sym in Hc.
    destruct b; cbn [str.contains]; rewrite Hc, ?IH; [done|].
    by change (Ascii.eqb ":" " ") with false.
  - cbn [str.contains]. by rewrite IH.
Qed.

Lemma partition_at_colon (p n : string) :
  str.contains p ":" = false →
  str.partition ":" (p ++ String ":" n) = (p, ":", n).
Proof.
  induction p as [|c p IH]; [done|].
  change (String c p ++ String ":" n) with (String c (p ++ String ":" n)).
  cbn [str.contains str.partition].
  rewrite (Ascii.eqb_sym c ":").
  destruct (Ascii.eqb ":" c); [done|]. intros H. by rewrite (IH H).
Qed.

(** A prefix without colon that names a namespace is split off, however
    its underscores and spaces are written. *)
Lemma ns_split_prefix d dflt (p n : string) (ns : Namespace) :
  str.contains p ":" = false →
  _namespace.lookup_name d p = Some ns →
  ns_split d dflt (re.sub_us (p ++ String ":" n)) = (ns, re.sub_us n).
Proof.
  intros Hp Hns. unfold ns_split, re.sub_us.
  rewrite sub_us_from_colon, partition_at_colon
    by (by rewrite contains_sub_us_from).
  simpl. unfold _namespace.lookup_name, _namespace.normalize_name in Hns |- *.
  fold (re.sub_us p). rewrite sub_us_idem. by rewrite Hns.
Qed.

(** X21: as the docstring of [sametitle] has it, titles "may be unequal
    but still identify the same page, if they use different aliases for
    the same namespace": two names of one namespace, in front of the
    same local name, give the same page. *)
Theorem sametitle_namespace_aliases (d : NamespacesDict) (dflt : Namespace)
    (p1 p2 name : string) (ns1 ns2 : Namespace) :
  _namespace.getitem d 0 = Ok dflt →
  str.contains p1 ":" = false →
  str.contains p2 ":" = false →
  _namespace.lookup_name d p1 = Some ns1 →
  _namespace.lookup_name d p2 = Some ns2 →
  _namespace.id ns1 = _namespace.id ns2 →
  sametitle d (p1 ++ String ":" name) (p2 ++ String ":" name) = Ok true.
Proof.
  intros Hd Hp1 Hp2 H1 H2 Hid.
  destruct (decide (re.sub_us (p1 ++ String ":" name)
                    = re.sub_us (p2 ++ String ":" name))) as [E|E].
  { by apply sametitle_fast. }
  rewrite (sametitle_slow d dflt) by done.
  rewrite (ns_split_prefix d dflt p1 name ns1 Hp1 H1).
  rewrite (ns_split_prefix d dflt p2 name ns2 Hp2 H2).
  unfold _namespace.eqb. rewrite Hid, Z.eqb_refl. simpl.
  destruct (String.eqb _ "first-letter"); by rewrite String.eqb_refl.
Qed.

Lemma sametitle_namespace_aliases_witness :
  sametitle sample.namespaces ("template" ++ String ":" "Foo")
    ("TEMPLATE" ++ String ":" "Foo") = Ok true.
Proof.
  eapply (sametitle_namespace_aliases sample.namespaces _ "template" "TEMPLATE"
            "Foo" _ _); [vm_compute; reflexivity|reflexivity|reflexivity
                        |vm_compute; reflexivity|vm_compute; reflexivity
                        |reflexivity].
Defined.

(** X22: in a namespace whose case-folding mode is not "first-letter"
    the trimmed local names are compared as they are: a difference in
    the case of the first letter is a difference of pages. *)
Theorem sametitle_case_sensitive (d : NamespacesDict) (dflt : Namespace)
    (t1 t2 : string) (ns1 ns2 : Namespace) (name1 name2 : string) :
  _namespace.getitem d 0 = Ok dflt →
  ns_split d dflt (re.sub_us t1) = (ns1, name1) →
  ns_split d dflt (re.sub_us t2) = (ns2, name2) →
  _namespace.id ns1 = _namespace.id ns2 →
  _namespace.case ns1 ≠ "first-letter" →
  sametitle d t1 t2 = Ok (String.eqb (str.strip name1) (str.strip name2)).
Proof.
  intros Hd H1 H2 Hid Hcase.
  destruct (decide (re.sub_us t1 = re.sub_us t2)) as [E|E].
  - rewrite (sametitle_fast _ _ _ E). rewrite E, H2 in H1.
    injection H1 as _ ->. by rewrite String.eqb_refl.
  - rewrite (sametitle_slow d dflt) by done. rewrite H1, H2.
    unfold _namespace.eqb. rewrite Hid, Z.eqb_refl. simpl.
    by destruct (String.eqb_spec (_namespace.case ns1) "first-letter").
Qed.

Lemma sametitle_case_sensitive_witness :
  sametitle sample.wiktionary_namespaces "foo" "Foo"
  = Ok (String.eqb (str.strip "foo") (str.strip "Foo")).
Proof.
  apply (sametitle_case_sensitive sample.wiktionary_namespaces
           sample.wiktionary_main "foo" "Foo" sample.wiktionary_main
           sample.wiktionary_main "foo" "Foo");
    [vm_compute; reflexivity|vm_compute; reflexivity|vm_compute; reflexivity
    |reflexivity|vm_compute; discriminate].
Defined.

(** ** Caches and stale locks *)

(** X23: the namespace table is built once.  After the first access to
    [namespaces] every later access returns the same table and leaves the
    instance alone, whatever [_build_namespaces] would build by then.  An
    access writes no attribute but [_namespaces]: the attribute
    dictionary afterwards is the one before with the returned table under
    that key, so every other attribute, absent ones included, is as it
    was; the table returned is the cached one when there is one, and the
    newly built one otherwise.  Pickling carries the table along. *)
Theorem namespaces_built_once (build build' : NamespacesDict)
    (self self1 : BaseSite) (d : NamespacesDict) :
  namespaces build self = (self1, d) →
  namespaces build' self1 = (self1, d)
  ∧ __dict__ self1 = <["_namespaces" := VNamespaces d]> (__dict__ self)
  ∧ (code self1 = code self
     ∧ family self1 = family self
     ∧ obsolete self1 = obsolete self
     ∧ _username self1 = _username self
     ∧ use_hard_category_redirects self1 = use_hard_category_redirects self
     ∧ _pagemutex self1 = _pagemutex self
     ∧ _locked_pages self1 = _locked_pages self
     ∧ _throttle self1 = _throttle self
     ∧ _iw_sites self1 = _iw_sites self)
  ∧ _namespaces self1 = Some d
  ∧ d = default build (_namespaces self)
  ∧ (is_Some (_namespaces self) → self1 = self)
  ∧ __getstate__ self1 !! "_namespaces" = Some (VNamespaces d).
Proof.
  unfold namespaces. destruct self as [c f o u h m l t [n|] i]; simpl.
  - intros [= <- <-]. simpl. split; [done|]. split.
    { destruct t, i; vm_compute; reflexivity. }
    repeat split. destruct t, i; vm_compute; reflexivity.
  - intros [= <- <-]. simpl. split; [done|]. split.
    { destruct t, i; vm_compute; reflexivity. }
    repeat split; [by intros [? [=]]|].
    destruct t, i; vm_compute; reflexivity.
Qed.

Lemma namespaces_built_once_witness :
  let self := sample.enwiki in
  let self1 := set_namespaces sample.namespaces sample.enwiki in
  let d := sample.namespaces in
  namespaces sample.namespaces self = (self1, d)
  ∧ namespaces sample.wiktionary_namespaces self1 = (self1, d)
  ∧ __dict__ self1 = <["_namespaces" := VNamespaces d]> (__dict__ self)
  ∧ (code self1 = code self
     ∧ family self1 = family self
     ∧ obsolete self1 = obsolete self
     ∧ _username self1 = _username self
     ∧ use_hard_category_redirects self1 = use_hard_category_redirects self
     ∧ _pagemutex self1 = _pagemutex self
     ∧ _locked_pages self1 = _locked_pages self
     ∧ _throttle self1 = _throttle self
     ∧ _iw_sites self1 = _iw_sites self)
  ∧ _namespaces self1 = Some d
  ∧ d = default sample.namespaces (_namespaces self)
  ∧ (is_Some (_namespaces self) → self1 = self)
  ∧ __getstate__ self1 !! "_namespaces" = Some (VNamespaces d).
Proof.
  intros self self1 d.
  assert (Hcall : namespaces sample.namespaces self = (self1, d))
    by reflexivity.
  split; [exact Hcall|].
  exact (namespaces_built_once sample.namespaces sample.wiktionary_namespaces
           self self1 d Hcall).
Defined.

(** X24: a lock that was held when the site was pickled is in force on
    the unpickled site although no thread there took it: a non-blocking
    [lock_page] for that title raises [PageInUse], until some thread
    calls [unlock_page] for it, after which the title can be locked. *)
Theorem unpickled_lock_in_force (self self' : BaseSite) (t : thread)
    (page : Page) :
  restore (__getstate__ self) = Some self' →
  page_title page ∈ _locked_pages self →
  ∃ s1 s2 s3,
    lock_page (initial self') t page false = Some s1
    ∧ last s1 t = Some (Raises (PageInUse (page_title page)))
    ∧ unlock_page s1 t page = Some s2
    ∧ lock_page s2 t page false = Some s3
    ∧ last s3 t = Some Returned.
Proof.
  rewrite restore_getstate. intros [= <-] Hin.
  destruct (lock_page_taken_whole (initial (restored self)) t page false)
    as (s1 & Hcall1 & Hl1 & _ & Ho1 & _ & Hpc1 & Hlast1); [done..|].
  assert (Hidle1 : pcs s1 t = Idle) by (by rewrite Hpc1, decide_True).
  destruct (unlock_page_whole s1 t page Hidle1 Ho1)
    as (s2 & Hcall2 & Hl2 & Hm2 & Hpc2 & _ & _).
  assert (Hidle2 : pcs s2 t = Idle) by (by rewrite Hpc2, decide_True).
  assert (Hown2 : owner (_pagemutex (site s2)) = None) by (by rewrite Hm2).
  assert (Hfree : page_title page ∉ _locked_pages (site s2)).
  { rewrite Hl2. intros [_ Hx]%elem_of_difference. apply Hx.
    by apply elem_of_singleton. }
  destruct (lock_page_free_whole s2 t page false Hidle2 Hown2 Hfree)
    as (s3 & Hcall3 & _ & _ & _ & Hlast3 & _).
  exists s1, s2, s3. rewrite Hlast1, Hlast3, !decide_True by done. done.
Qed.

Lemma unpickled_lock_in_force_witness :
  ∃ s1 s2 s3,
    lock_page (initial (restored sample.enwiki_X_locked)) 0%nat sample.pageX
      false = Some s1
    ∧ last s1 0%nat = Some (Raises (PageInUse (page_title sample.pageX)))
    ∧ unlock_page s1 0%nat sample.pageX = Some s2
    ∧ lock_page s2 0%nat sample.pageX false = Some s3
    ∧ last s3 0%nat = Some Returned.
Proof.
  apply (unpickled_lock_in_force sample.enwiki_X_locked
           (restored sample.enwiki_X_locked) 0%nat sample.pageX).
  - vm_compute. reflexivity.
  - apply (bool_decide_unpack _). vm_compute. exact I.
Defined.

(** The single-language shortcut taken for the default family: the
    default language follows the family name, with one warning. *)
Example init_changes_mylang :
  let w := {| cfg := {| config.family := "MyWiki"; config.mylang := "en" |};
              logged := []; warned := [] |} in
  let w' := fst (__init__ sample.CODE_CHARACTERS sample.normalize_username
                   "EN" sample.MyWiki None w) in
  config.mylang (cfg w') = "MyWiki" ∧ length (warned w') = 1%nat.
Proof. vm_compute. done. Qed.
